(** * review.py: the three-stage manuscript review pipeline

    A shallow embedding of [scripts/review.py] (diagnosis, perspective,
    surgery and the report renderer) together with the properties its
    specification states about it.

    Python strings are sequences of Unicode code points; the regular
    expressions of the script are transcribed into a small pattern
    language whose backtracking matcher follows [re]'s priorities
    (greedy repetition, leftmost match, non-overlapping [findall]). *)

From Stdlib Require Import Strings.String Strings.Ascii Strings.Byte.
From Stdlib Require Import Numbers.DecimalString.
From Stdlib Require Import List Arith NArith Bool Lia Permutation.
Import ListNotations.

Open Scope N_scope.

(* ===================================================================== *)
(** * Text *)
(* ===================================================================== *)

(** A character is a Unicode code point, a [str] a Python [str]. *)
Definition char := N.
Definition str := list char.

Definition str_eq_dec : forall a b : str, {a = b} + {a <> b} :=
  list_eq_dec N.eq_dec.

Fixpoint str_eqb (a b : str) : bool :=
  match a, b with
  | [], [] => true
  | x :: a', y :: b' => (x =? y) && str_eqb a' b'
  | _, _ => false
  end.

(** Source literals are written as UTF-8 text and decoded to code points. *)
Fixpoint utf8_decode (bs : list N) : str :=
  match bs with
  | [] => []
  | b0 :: t0 =>
    if b0 <? 0x80 then b0 :: utf8_decode t0
    else
      match t0 with
      | [] => []
      | b1 :: t1 =>
        if b0 <? 0xE0 then ((b0 mod 0x20) * 0x40 + b1 mod 0x40) :: utf8_decode t1
        else
          match t1 with
          | [] => []
          | b2 :: t2 =>
            if b0 <? 0xF0 then
              ((b0 mod 0x10) * 0x1000 + (b1 mod 0x40) * 0x40 + b2 mod 0x40)
                :: utf8_decode t2
            else
              match t2 with
              | [] => []
              | b3 :: t3 =>
                ((b0 mod 0x08) * 0x40000 + (b1 mod 0x40) * 0x1000
                 + (b2 mod 0x40) * 0x40 + b3 mod 0x40) :: utf8_decode t3
              end
          end
      end
  end.

Definition u (s : string) : str :=
  utf8_decode (map Byte.to_N (list_byte_of_string s)).

(** The two ASCII characters that cannot be written inside a literal. *)
Definition dq : str := [34].
Definition nl : str := [10].

(** [needle in haystack] *)
Fixpoint starts_with (needle s : str) : bool :=
  match needle, s with
  | [], _ => true
  | c :: needle', d :: s' => (c =? d) && starts_with needle' s'
  | _ :: _, [] => false
  end.

Fixpoint contains (haystack needle : str) : bool :=
  starts_with needle haystack ||
  match haystack with
  | [] => false
  | _ :: haystack' => contains haystack' needle
  end.

(** [x in xs] for a list of strings *)
Definition str_in (x : str) (xs : list str) : bool :=
  existsb (str_eqb x) xs.

(** [sep.join(xs)] *)
Fixpoint join (sep : str) (xs : list str) : str :=
  match xs with
  | [] => []
  | [x] => x
  | x :: xs' => x ++ sep ++ join sep xs'
  end.

(** The text property the specification speaks of: an occurrence. *)
Definition occurs (needle text : str) : Prop :=
  exists pre post, text = pre ++ needle ++ post.

(* ===================================================================== *)
(** * The Unicode tables of the interpreter *)
(* ===================================================================== *)

Definition ascii_upper (c : char) : bool := (65 <=? c) && (c <=? 90).
Definition ascii_lower (c : char) : bool := (97 <=? c) && (c <=? 122).
Definition ascii_letter (c : char) : bool := ascii_upper c || ascii_lower c.
Definition ascii_digit (c : char) : bool := (48 <=? c) && (c <=? 57).
Definition ascii_word (c : char) : bool :=
  ascii_letter c || ascii_digit c || (c =? 95).
(** [一-龥] *)
Definition cjk (c : char) : bool := (0x4e00 <=? c) && (c <=? 0x9fa5).

(** [re] on [str] patterns classifies characters with the interpreter's
    Unicode database: [\w] is [str.isalnum] or underscore, [\d] is the
    decimal digits. The database is not part of the script; it is taken
    as a parameter, constrained on the two blocks the script's own tables
    are written in (ASCII and the CJK ideographs U+4E00..U+9FA5). *)
Record unicode_db := {
  is_word : char -> bool;
  is_decimal : char -> bool;
  word_ascii : forall c, c < 128 -> is_word c = ascii_word c;
  word_cjk : forall c, cjk c = true -> is_word c = true;
  decimal_ascii : forall c, c < 128 -> is_decimal c = ascii_digit c
}.

(* ===================================================================== *)
(** * Regular expressions *)
(* ===================================================================== *)

(** The fragment of [re] syntax the script uses. Repetition is only ever
    applied to a single character set. *)
Inductive regex : Type :=
| Str (s : str)                       (* literal characters *)
| Class (p : char -> bool)            (* [...] or . *)
| Star (p : char -> bool)             (* [...]* , greedy *)
| Plus (p : char -> bool)             (* [...]+ , greedy *)
| Repeat (n : nat) (p : char -> bool) (* [...]{n} *)
| WordB                               (* \b *)
| Group (r : regex)                   (* ( r ) *)
| Cat (r1 r2 : regex).

Declare Scope regex_scope.
Delimit Scope regex_scope with re.
Bind Scope regex_scope with regex.
Infix "@@" := Cat (at level 60, right associativity) : regex_scope.

(** [.] without DOTALL: anything but a line feed. *)
Definition dot (c : char) : bool := negb (c =? 10).
(** [[^x]] *)
Definition other_than (x : char) (c : char) : bool := negb (c =? x).
(** [[xyz]] *)
Definition one_of (s : str) (c : char) : bool := existsb (N.eqb c) s.

(** A successful match: the text consumed and the groups captured. *)
Definition found := (str * list str)%type.

Section Matcher.
Variable db : unicode_db.

(** [\b]: exactly one side of the position is a word character; the
    outside of the text counts as a non-word character. *)
Definition word_before (seen : str) : bool :=
  match seen with c :: _ => is_word db c | [] => false end.
Definition word_after (rest : str) : bool :=
  match rest with c :: _ => is_word db c | [] => false end.
Definition at_boundary (seen rest : str) : bool :=
  xorb (word_before seen) (word_after rest).

Section Run.
Context {A : Type}.

(** The matcher walks a cursor: [seen] is the text left of the
    position, nearest character first, [rest] the text right of it.
    The continuation [k] is the remainder of the pattern; [None] makes
    the matcher backtrack. *)
Fixpoint lit (s : str) (seen rest : str) (k : str -> str -> option A)
  : option A :=
  match s with
  | [] => k seen rest
  | c :: s' =>
    match rest with
    | d :: rest' => if c =? d then lit s' (d :: seen) rest' k else None
    | [] => None
    end
  end.

Fixpoint many (p : char -> bool) (seen rest : str)
         (k : str -> str -> option A) : option A :=
  match rest with
  | c :: rest' =>
    if p c then
      match many p (c :: seen) rest' k with
      | Some a => Some a
      | None => k seen rest
      end
    else k seen rest
  | [] => k seen rest
  end.

Fixpoint exactly (n : nat) (p : char -> bool) (seen rest : str)
         (k : str -> str -> option A) : option A :=
  match n with
  | O => k seen rest
  | S n' =>
    match rest with
    | c :: rest' => if p c then exactly n' p (c :: seen) rest' k else None
    | [] => None
    end
  end.

Fixpoint run (r : regex) (seen rest : str) (caps : list str)
         (k : str -> str -> list str -> option A) : option A :=
  match r with
  | Str s => lit s seen rest (fun sn rs => k sn rs caps)
  | Class p =>
    match rest with
    | c :: rest' => if p c then k (c :: seen) rest' caps else None
    | [] => None
    end
  | Star p => many p seen rest (fun sn rs => k sn rs caps)
  | Plus p =>
    match rest with
    | c :: rest' =>
      if p c then many p (c :: seen) rest' (fun sn rs => k sn rs caps)
      else None
    | [] => None
    end
  | Repeat n p => exactly n p seen rest (fun sn rs => k sn rs caps)
  | WordB => if at_boundary seen rest then k seen rest caps else None
  | Group r' =>
    run r' seen rest caps
        (fun sn rs cs =>
           k sn rs (cs ++ [rev (firstn (length sn - length seen) sn)]))
  | Cat r1 r2 =>
    run r1 seen rest caps (fun sn rs cs => run r2 sn rs cs k)
  end.
End Run.

(** A match attempt anchored at the cursor: the number of characters
    consumed and the captured groups. *)
Definition match_at (r : regex) (seen rest : str) : option (nat * list str) :=
  run r seen rest [] (fun sn _ cs => Some (length sn - length seen, cs)%nat).

(** [re.search(r, text)]: the leftmost position with a match. *)
Fixpoint search_from (r : regex) (seen rest : str) : option found :=
  match match_at r seen rest with
  | Some (n, cs) => Some (firstn n rest, cs)
  | None =>
    match rest with
    | [] => None
    | c :: rest' => search_from r (c :: seen) rest'
    end
  end.

Definition search (r : regex) (text : str) : option found :=
  search_from r [] text.

(** [re.findall]: leftmost matches, left to right, none overlapping. A
    match of [n] characters at a position makes the scan resume [n]
    positions further; [skip] counts the positions still to step over.
    (Every pattern of the script consumes at least one character, so no
    match is empty.) *)
Fixpoint findall_from (r : regex) (skip : nat) (seen rest : str)
  : list found :=
  match skip with
  | S skip' =>
    match rest with
    | [] => []
    | c :: rest' => findall_from r skip' (c :: seen) rest'
    end
  | O =>
    match match_at r seen rest with
    | Some (n, cs) =>
      (firstn n rest, cs) ::
      match rest with
      | [] => []
      | c :: rest' => findall_from r (pred n) (c :: seen) rest'
      end
    | None =>
      match rest with
      | [] => []
      | c :: rest' => findall_from r 0 (c :: seen) rest'
      end
    end
  end.

Definition finditer (r : regex) (text : str) : list found :=
  findall_from r 0 [] text.

(** What [findall] returns depends on the number of groups: the whole
    match for none, the group for one, else the tuple of groups. *)
Definition findall0 (r : regex) (text : str) : list str :=
  map fst (finditer r text).
Definition findall1 (r : regex) (text : str) : list str :=
  map (fun m => hd [] (snd m)) (finditer r text).
Definition findall_groups (r : regex) (text : str) : list (list str) :=
  map snd (finditer r text).
End Matcher.

(* ===================================================================== *)
(** * Python values the script relies on *)
(* ===================================================================== *)

(** Exceptions, for the calls that can raise. *)
Inductive exn : Type := ValueError | KeyError.

Inductive result (A : Type) : Type :=
| Ok (a : A)
| Raise (e : exn).
Arguments Ok {A} a.
Arguments Raise {A} e.

Definition bind {A B : Type} (m : result A) (f : A -> result B) : result B :=
  match m with
  | Ok a => f a
  | Raise e => Raise e
  end.

Notation "x <- m ;; f" := (bind m (fun x => f))
  (at level 61, m at next level, right associativity).

(** [l.remove(x)]: drops the first element equal to [x], raises
    [ValueError] when there is none. *)
Fixpoint list_remove (x : str) (l : list str) : result (list str) :=
  match l with
  | [] => Raise ValueError
  | y :: l' =>
    if str_eqb y x then Ok l'
    else r <- list_remove x l' ;; Ok (y :: r)
  end.

(** A [dict] with string keys and values keeps its items in insertion
    order; storing under a key it already holds replaces the value in
    place. *)
Definition dict := list (str * str).

Fixpoint dict_get (d : dict) (k : str) : option str :=
  match d with
  | [] => None
  | (k', v) :: d' => if str_eqb k' k then Some v else dict_get d' k
  end.

Fixpoint dict_set (d : dict) (k v : str) : dict :=
  match d with
  | [] => [(k, v)]
  | (k', v') :: d' =>
    if str_eqb k' k then (k', v) :: d' else (k', v') :: dict_set d' k v
  end.

(** A dict display [{k1: v1, k2: v2, ...}] *)
Definition dict_of (items : list (str * str)) : dict :=
  fold_left (fun d kv => dict_set d (fst kv) (snd kv)) items [].

Definition dict_has (d : dict) (k : str) : bool :=
  match dict_get d k with Some _ => true | None => false end.

(** [list(set(l))]: the distinct elements of [l] in the iteration order
    of the interpreter's hash table. That order follows the string hashes,
    which are salted per process; it is a parameter of a run, known only
    to enumerate each distinct element once. *)
Record set_order := {
  as_list : list str -> list str;
  as_list_perm : forall l, Permutation (as_list l) (nodup str_eq_dec l)
}.

(* ===================================================================== *)
(** * The analysis results *)
(* ===================================================================== *)

Record Citations := {
  chinese_classics : list str;
  foreign_texts : list str;
  modern_papers : list (list str)
}.

Record HardIssues := {
  typos : list str;
  citation_errors : list str;
  term_misuses : list str
}.

Record TheoreticalAnalysis := {
  solid_theories : list str;
  missing_literature : list str
}.

Record InterpretationEvaluation := {
  depth : str;
  originality : str;
  issues : list str
}.

Record AestheticAnalysis := {
  discourse_issues : list str;
  logic_issues : list str
}.

Record Perspective := {
  core_theories : list str;
  theoretical_lineage : TheoreticalAnalysis;
  interpretation_evaluation : InterpretationEvaluation;
  academic_position : str
}.

Record Surgery := {
  citation_issues : list str;
  aesthetic_analysis : AestheticAnalysis;
  restructuring_suggestions : list str
}.

Record Report := {
  title : str;
  date : str;
  diagnosis : HardIssues;
  perspective : Perspective;
  surgery : Surgery
}.

(** [hard_issues.items()], in the order the keys were created. *)
Definition hard_issues_items (h : HardIssues) : list (str * list str) :=
  [ (u "typos", typos h);
    (u "citation_errors", citation_errors h);
    (u "term_misuses", term_misuses h) ].

(* ===================================================================== *)
(** * The rule tables *)
(* ===================================================================== *)

Definition theory_keywords : list str :=
  [ u "解构主义"; u "物感"; u "向心补偿"; u "现象学"; u "存在主义"; u "结构主义";
    u "后现代主义"; u "生态美学"; u "数字美学"; u "媒介考古学"; u "阐释学";
    u "接受美学"; u "新批评"; u "文化研究"; u "女性主义"; u "后殖民主义";
    u "精神分析"; u "符号学"; u "叙事学"; u "修辞学"; u "形式主义" ].

Definition common_typos : dict :=
  dict_of
    [ (u "现象学主义", u "现象学");
      (u "黑格尔", u "海德格尔");
      (u "解构论", u "解构主义");
      (u "文心雕龙注", u "文心雕龙") ].

Definition common_mistranslations : dict :=
  dict_of
    [ (u "Heidegger", u "海德格尔");
      (u "Hegel", u "黑格尔");
      (u "Nietzsche", u "尼采") ].

Definition canonical_classics : list str :=
  [ u "文心雕龙"; u "诗品"; u "人间词话" ].

Definition western_canon : list str := [ u "解构主义"; u "现象学" ].
Definition china_specific : list str := [ u "物感"; u "向心补偿" ].

Definition open_title : char := 0x300a.   (* 《 *)
Definition close_title : char := 0x300b.  (* 》 *)

(** [\b[A-Z][a-zA-Z]*ism\b] *)
Definition english_theory_pattern : regex :=
  (WordB @@ Class ascii_upper @@ Star ascii_letter @@ Str (u "ism") @@ WordB)%re.

(** [《([^》]+)》] *)
Definition chinese_classics_pattern : regex :=
  (Str [open_title] @@ Group (Plus (other_than close_title))
       @@ Str [close_title])%re.

(** [\b([A-Z][a-zA-Z]+)\b] *)
Definition foreign_texts_pattern : regex :=
  (WordB @@ Group (Class ascii_upper @@ Plus ascii_letter) @@ WordB)%re.

(** [([一-龥]+)《([^》]+)》，《([^》]+)》(\d{4})年第(\d+)期] *)
Definition modern_papers_pattern (db : unicode_db) : regex :=
  (Group (Plus cjk) @@ Str [open_title]
     @@ Group (Plus (other_than close_title)) @@ Str (u "》，《")
     @@ Group (Plus (other_than close_title)) @@ Str [close_title]
     @@ Group (Repeat 4 (is_decimal db)) @@ Str (u "年第")
     @@ Group (Plus (is_decimal db)) @@ Str (u "期"))%re.

(** [\bA\b.*\bB\b], the shape of both term-confusion patterns *)
Definition confusion_pattern (a b : str) : regex :=
  (WordB @@ Str a @@ WordB @@ Star dot @@ WordB @@ Str b @@ WordB)%re.

Definition term_misuses_patterns : list (regex * str) :=
  [ (confusion_pattern (u "解构主义") (u "结构主义"), u "混淆了解构主义和结构主义");
    (confusion_pattern (u "物感") (u "物化"), u "混淆了物感和物化概念") ].

(** [\b[一-龥]+[主义|理论|转向|维度|谱系]\b]: the bracket is a character
    set, so it stands for one character out of those listed. *)
Definition jargon_pattern : regex :=
  (WordB @@ Plus cjk @@ Class (one_of (u "主义|理论|转向|维度|谱系")) @@ WordB)%re.

(** [西方.*理论.*中国] *)
Definition transplant_pattern : regex :=
  (Str (u "西方") @@ Star dot @@ Str (u "理论") @@ Star dot @@ Str (u "中国"))%re.

Definition restructuring : list str :=
  [ u "强化理论与文本的结合，避免生搬硬套";
    u "补充该领域的最新研究成果";
    u "加强对当代艺术实践的观照";
    u "优化学术话语，避免过度使用术语";
    u "注意引文的规范性和准确性" ].

(* ===================================================================== *)
(** * The pipeline *)
(* ===================================================================== *)

Section Pipeline.
Variable db : unicode_db.

(** ** extract_core_theories *)
Definition found_keywords (paper_content : str) : list str :=
  fold_left
    (fun found_theories theory =>
       if contains paper_content theory then found_theories ++ [theory]
       else found_theories)
    theory_keywords [].

Definition extract_core_theories (order : set_order) (paper_content : str)
  : list str :=
  let found_theories := found_keywords paper_content in
  let english_theories := findall0 db english_theory_pattern paper_content in
  let found_theories := found_theories ++ english_theories in
  as_list order found_theories.

(** ** extract_citations *)
Definition extract_citations (paper_content : str) : Citations :=
  {| chinese_classics := findall1 db chinese_classics_pattern paper_content;
     foreign_texts := findall1 db foreign_texts_pattern paper_content;
     modern_papers :=
       findall_groups db (modern_papers_pattern db) paper_content |}.

(** ** diagnose_paper *)
Definition typo_issue (typo correct : str) : str :=
  u "将" ++ dq ++ typo ++ dq ++ u "误写为" ++ dq ++ correct ++ dq.

Definition add_typo (h : HardIssues) (s : str) : HardIssues :=
  {| typos := typos h ++ [s];
     citation_errors := citation_errors h;
     term_misuses := term_misuses h |}.

Definition add_term_misuse (h : HardIssues) (s : str) : HardIssues :=
  {| typos := typos h;
     citation_errors := citation_errors h;
     term_misuses := term_misuses h ++ [s] |}.

(** The function with its two tables taken as arguments. *)
Definition diagnose_with (typo_table : dict)
           (patterns : list (regex * str)) (paper_content : str)
  : HardIssues :=
  let hard_issues :=
      {| typos := []; citation_errors := []; term_misuses := [] |} in
  let hard_issues :=
      fold_left
        (fun h entry =>
           let '(typo, correct) := entry in
           if contains paper_content typo
           then add_typo h (typo_issue typo correct)
           else h)
        typo_table hard_issues in
  let hard_issues :=
      fold_left
        (fun h entry =>
           let '(pattern, description) := entry in
           match search db pattern paper_content with
           | Some _ => add_term_misuse h description
           | None => h
           end)
        patterns hard_issues in
  hard_issues.

Definition diagnose_paper (paper_content : str) : HardIssues :=
  diagnose_with common_typos term_misuses_patterns paper_content.

(** ** analyze_theoretical_lineage *)
Definition solid_western (theory : str) : str :=
  u "理论" ++ dq ++ theory ++ dq ++ u "的谱系较为清晰，但需补充最新研究成果".
Definition missing_western (theory : str) : str :=
  theory ++ u "领域的最新研究：张三《" ++ theory ++ u "的当代转向》，2024".
Definition solid_chinese (theory : str) : str :=
  u "理论" ++ dq ++ theory ++ dq ++ u "的中国特色鲜明，但需加强与西方理论的对话".
Definition missing_chinese (theory : str) : str :=
  theory ++ u "与西方现象学比较研究：李四《从" ++ theory ++ u "到现象学》，2023".
Definition solid_other (theory : str) : str :=
  u "理论" ++ dq ++ theory ++ dq ++ u "的运用基本合理".

Definition lineage_step (a : TheoreticalAnalysis) (theory : str)
  : TheoreticalAnalysis :=
  if str_in theory western_canon then
    {| solid_theories := solid_theories a ++ [solid_western theory];
       missing_literature := missing_literature a ++ [missing_western theory] |}
  else if str_in theory china_specific then
    {| solid_theories := solid_theories a ++ [solid_chinese theory];
       missing_literature := missing_literature a ++ [missing_chinese theory] |}
  else
    {| solid_theories := solid_theories a ++ [solid_other theory];
       missing_literature := missing_literature a |}.

Definition analyze_theoretical_lineage (theories : list str)
  : TheoreticalAnalysis :=
  fold_left lineage_step theories
            {| solid_theories := []; missing_literature := [] |}.

(** ** evaluate_interpretation *)
Definition issue_surface : str := u "文本阐释较为表面，缺乏深入的文化语境分析".
Definition issue_forced : str := u "理论与文本结合不够紧密，存在生搬硬套现象".
Definition issue_practice : str := u "缺乏对当代艺术实践的观照".

Definition evaluate_interpretation (paper_content : str)
  : result InterpretationEvaluation :=
  let interpretation_evaluation :=
      {| depth := u "中等";
         originality := u "一般";
         issues := [issue_surface; issue_forced; issue_practice] |} in
  if contains paper_content (u "当代艺术") || contains paper_content (u "数字艺术")
  then
    remaining <- list_remove issue_practice (issues interpretation_evaluation) ;;
    Ok {| depth := u "较深"; originality := u "较好"; issues := remaining |}
  else Ok interpretation_evaluation.

(** ** check_citations_accuracy *)
Definition classic_reminder (classic : str) : str :=
  u "《" ++ classic ++ u "》引用时应标注具体版本和页码".
Definition translation_notice (foreign_text translation : str) : str :=
  foreign_text ++ u "的标准译名为" ++ dq ++ translation ++ dq
               ++ u "，请检查译名是否规范".

Definition check_citations_accuracy (citations : Citations) : list str :=
  let citation_issues := [] in
  let citation_issues :=
      fold_left
        (fun acc classic =>
           if str_in classic canonical_classics
           then acc ++ [classic_reminder classic] else acc)
        (chinese_classics citations) citation_issues in
  let citation_issues :=
      fold_left
        (fun acc foreign_text =>
           match dict_get common_mistranslations foreign_text with
           | Some translation =>
             acc ++ [translation_notice foreign_text translation]
           | None => acc
           end)
        (foreign_texts citations) citation_issues in
  citation_issues.

(** ** review_aesthetic_logic *)
Definition jargon_warning : str := u "使用了过多的学术术语，可能掩盖思想的贫瘠".
Definition transplant_warning : str :=
  u "存在将西方理论直接套用于中国艺术实践的倾向，需注意避免理论殖民".

Definition review_aesthetic_logic (paper_content : str) : AestheticAnalysis :=
  let jargon_count := length (findall0 db jargon_pattern paper_content) in
  let discourse :=
      if Nat.ltb 20 jargon_count then [jargon_warning] else [] in
  let logic :=
      if contains paper_content (u "西方") && contains paper_content (u "中国")
      then
        match search db transplant_pattern paper_content with
        | Some _ => [transplant_warning]
        | None => []
        end
      else [] in
  {| discourse_issues := discourse; logic_issues := logic |}.

(** ** generate_review_report

    [now] is the reading of the clock, already formatted; [order] the
    set iteration order of the run. The progress lines the function
    prints are not part of the report. *)
Definition report_title : str := u "文学/美学/艺术学论文深度审核报告".
Definition position_label : str :=
  u "论文观点处于传统研究与当代前沿之间，具有一定的学术价值，但缺乏对最新研究成果的关注".

Definition generate_review_report (order : set_order) (now : str)
           (paper_content : str) : result Report :=
  let hard_issues := diagnose_paper paper_content in
  let core_theories := extract_core_theories order paper_content in
  let citations := extract_citations paper_content in
  let theoretical_analysis := analyze_theoretical_lineage core_theories in
  interpretation_evaluation <- evaluate_interpretation paper_content ;;
  let citation_issues := check_citations_accuracy citations in
  let aesthetic_analysis := review_aesthetic_logic paper_content in
  Ok {| title := report_title;
        date := now;
        diagnosis := hard_issues;
        perspective :=
          {| core_theories := core_theories;
             theoretical_lineage := theoretical_analysis;
             interpretation_evaluation := interpretation_evaluation;
             academic_position := position_label |};
        surgery :=
          {| citation_issues := citation_issues;
             aesthetic_analysis := aesthetic_analysis;
             restructuring_suggestions := restructuring |} |}.

(** ** format_report *)
Definition bullets (prefix : str) (items : list str) : str :=
  fold_left (fun out item => out ++ prefix ++ item ++ nl) items [].

Definition is_nonempty {A : Type} (l : list A) : bool :=
  match l with [] => false | _ :: _ => true end.

Definition no_issues_found : str := u "- 未发现明显的硬伤" ++ nl.

Definition format_diagnosis (hard_issues : HardIssues) : str :=
  let out := u "## 第一步：诊断结果" ++ nl ++ nl in
  if existsb is_nonempty (map snd (hard_issues_items hard_issues)) then
    let out := out ++ u "### 硬伤列表" ++ nl in
    fold_left
      (fun out entry =>
         let '(issue_type, found_issues) := entry in
         if is_nonempty found_issues then
           let out := out ++ u "- **" ++ issue_type ++ u "**：" ++ nl in
           out ++ bullets (u "  - ") found_issues
         else out)
      (hard_issues_items hard_issues) out
  else
    let out := out ++ u "### 硬伤列表" ++ nl in
    out ++ no_issues_found.

Definition format_perspective (p : Perspective) : str :=
  let out := nl ++ u "## 第二步：透视分析" ++ nl ++ nl in
  let out := out ++ u "### 核心理论" ++ nl in
  let out := out ++ u "- " ++ join (u ", ") (core_theories p) ++ nl ++ nl in
  let out := out ++ u "### 理论谱系评估" ++ nl in
  let out := out ++ bullets (u "- ") (solid_theories (theoretical_lineage p)) in
  let out := out ++ nl ++ u "### 缺失的关键文献" ++ nl in
  let out :=
      out ++ bullets (u "- ") (missing_literature (theoretical_lineage p)) in
  let out := out ++ nl ++ u "### 文本阐释评估" ++ nl in
  let out :=
      out ++ u "- **深度**：" ++ depth (interpretation_evaluation p) ++ nl in
  let out :=
      out ++ u "- **独创性**：" ++ originality (interpretation_evaluation p)
          ++ nl in
  let out := out ++ u "- **存在的问题**：" ++ nl in
  let out := out ++ bullets (u "  - ") (issues (interpretation_evaluation p)) in
  let out := out ++ nl ++ u "### 学术位置评估" ++ nl in
  out ++ academic_position p ++ nl.

Definition format_surgery (s : Surgery) : str :=
  let out := nl ++ u "## 第三步：修改建议" ++ nl ++ nl in
  let out :=
      if is_nonempty (citation_issues s) then
        out ++ u "### 引文问题" ++ nl ++ bullets (u "- ") (citation_issues s)
      else out in
  let out :=
      if is_nonempty (discourse_issues (aesthetic_analysis s)) then
        out ++ nl ++ u "### 话语规范问题" ++ nl
            ++ bullets (u "- ") (discourse_issues (aesthetic_analysis s))
      else out in
  let out :=
      if is_nonempty (logic_issues (aesthetic_analysis s)) then
        out ++ nl ++ u "### 审美逻辑问题" ++ nl
            ++ bullets (u "- ") (logic_issues (aesthetic_analysis s))
      else out in
  let out := out ++ nl ++ u "### 整体重构策略" ++ nl in
  out ++ bullets (u "- ") (restructuring_suggestions s).

Definition final_assessment : str :=
  nl ++ u "## 最终评估" ++ nl
     ++ u "该论文具有一定的学术价值，但在理论深度、文本阐释和学术话语等方面仍有提升空间。通过上述修改建议，有望进一步增强其学术影响力和理论贡献。"
     ++ nl.

Definition format_report (report : Report) : str :=
  let formatted_report := u "# " ++ title report ++ nl ++ nl in
  let formatted_report :=
      formatted_report ++ u "**审核日期**：" ++ date report ++ nl ++ nl in
  let formatted_report := formatted_report ++ format_diagnosis (diagnosis report) in
  let formatted_report :=
      formatted_report ++ format_perspective (perspective report) in
  let formatted_report := formatted_report ++ format_surgery (surgery report) in
  formatted_report ++ final_assessment.
End Pipeline.

(* ===================================================================== *)
(** * The command line *)
(* ===================================================================== *)

(** The namespace [parse_arguments] returns: an option that was not given
    is [None]. *)
Record Args := {
  file : option str;
  content : option str
}.

(** What the file system holds under a path: nothing, a text file (the
    text is what [f.read()] returns, decoded as UTF-8), or something that
    exists and cannot be opened or decoded. *)
Inductive file_state : Type :=
| Absent
| Holds (text : str)
| Unreadable.

(** How a call ends: it returns, it leaves through [exit(code)], or an
    exception nobody catches ends the process. *)
Inductive outcome (A : Type) : Type :=
| Returned (a : A)
| SystemExit (code : nat)
| Uncaught.
Arguments Returned {A} a.
Arguments SystemExit {A} code.
Arguments Uncaught {A}.

(** [if x:] on an optional string: [None] and the empty string are false. *)
Definition truthy (x : option str) : bool :=
  match x with
  | Some (_ :: _) => true
  | _ => false
  end.

(** [str(n)] *)
Definition decimal (n : nat) : str :=
  map Byte.to_N (list_byte_of_string (NilZero.string_of_uint (Nat.to_uint n))).

(** ** read_paper_content

    The result is paired with the lines printed on the way. *)
Definition read_paper_content (fs : str -> file_state) (args : Args)
  : list str * outcome str :=
  if truthy (file args) then
    let path := match file args with Some p => p | None => [] end in
    match fs path with
    | Absent => ([u "❌ 错误：文件 " ++ path ++ u " 不存在"], SystemExit 1)
    | Holds text => ([], Returned text)
    | Unreadable => ([], Uncaught)
    end
  else if truthy (content args) then
    ([], Returned (match content args with Some c => c | None => [] end))
  else ([u "❌ 错误：必须提供--content或--file参数"], SystemExit 1).

(** ** generate_review_report, with the progress lines it prints *)
Definition generate_review_report_io (db : unicode_db) (order : set_order)
           (now : str) (paper_content : str) : list str * result Report :=
  let out := [u "🎯 开始论文诊断..."] in
  let hard_issues := diagnose_paper db paper_content in
  let out := out ++ [u "🔍 提取核心理论和引文..."] in
  let core_theories := extract_core_theories db order paper_content in
  let citations := extract_citations db paper_content in
  let out := out ++ [u "📊 进行学术透视分析..."] in
  let theoretical_analysis := analyze_theoretical_lineage core_theories in
  match evaluate_interpretation paper_content with
  | Raise e => (out, Raise e)
  | Ok interpretation_evaluation =>
    let out := out ++ [u "💡 生成修改建议..."] in
    let citation_issues := check_citations_accuracy citations in
    let aesthetic_analysis := review_aesthetic_logic db paper_content in
    (out,
     Ok {| title := report_title;
           date := now;
           diagnosis := hard_issues;
           perspective :=
             {| core_theories := core_theories;
                theoretical_lineage := theoretical_analysis;
                interpretation_evaluation := interpretation_evaluation;
                academic_position := position_label |};
           surgery :=
             {| citation_issues := citation_issues;
                aesthetic_analysis := aesthetic_analysis;
                restructuring_suggestions := restructuring |} |})
  end.

(** ** main

    [args] is what [parse_arguments] returned, [show] how the interpreter
    prints an exception. The result is everything printed on standard
    output, one entry per [print], and how the process ends; the traceback
    of the handler goes to standard error. *)
Definition main (db : unicode_db) (order : set_order) (now : str)
           (show : exn -> str) (fs : str -> file_state) (args : Args)
  : list str * outcome unit :=
  match read_paper_content fs args with
  | (out, Returned paper_content) =>
    let out :=
        out ++ [u "📝 论文内容长度：" ++ decimal (length paper_content)
                  ++ u " 字符"] in
    let out := out ++ [repeat 61 50] in
    match generate_review_report_io db order now paper_content with
    | (progress, Ok report) =>
      let formatted_report := format_report report in
      (out ++ progress
           ++ [u "✅ 审核报告生成成功！"; nl ++ formatted_report],
       Returned tt)
    | (progress, Raise e) =>
      (out ++ progress ++ [u "❌ 生成审核报告时出错：" ++ show e],
       SystemExit 1)
    end
  | (out, SystemExit code) => (out, SystemExit code)
  | (out, Uncaught) => (out, Uncaught)
  end.

(* ===================================================================== *)
(** * Sample runtimes *)
(* ===================================================================== *)

(** Two iteration orders a run can have: first occurrence first, and the
    reverse of it. *)
Lemma first_seen_perm (l : list str) :
  Permutation (nodup str_eq_dec l) (nodup str_eq_dec l).
Proof. apply Permutation_refl. Qed.

Lemma last_seen_perm (l : list str) :
  Permutation (rev (nodup str_eq_dec l)) (nodup str_eq_dec l).
Proof. apply Permutation_sym, Permutation_rev. Qed.

Definition first_seen_order : set_order :=
  {| as_list := nodup str_eq_dec; as_list_perm := first_seen_perm |}.
Definition last_seen_order : set_order :=
  {| as_list := fun l => rev (nodup str_eq_dec l);
     as_list_perm := last_seen_perm |}.

(** A sample database: word characters are the ASCII ones and the CJK
    ideographs; it agrees with the interpreter's on those two blocks. *)
Definition sample_word (c : char) : bool :=
  if c <? 128 then ascii_word c else cjk c.

Lemma sample_word_ascii (c : char) : c < 128 -> sample_word c = ascii_word c.
Proof. unfold sample_word. intros H. apply N.ltb_lt in H. now rewrite H. Qed.

Lemma sample_word_cjk (c : char) : cjk c = true -> sample_word c = true.
Proof.
  unfold sample_word, cjk. intros H.
  apply andb_true_iff in H as [H1 H2]. apply N.leb_le in H1.
  destruct (c <? 128) eqn:E.
  - apply N.ltb_lt in E. lia.
  - now rewrite (proj2 (N.leb_le _ _) H1), H2.
Qed.

Lemma sample_decimal_ascii (c : char) : c < 128 -> ascii_digit c = ascii_digit c.
Proof. reflexivity. Qed.

Definition sample_db : unicode_db :=
  {| is_word := sample_word;
     is_decimal := ascii_digit;
     word_ascii := sample_word_ascii;
     word_cjk := sample_word_cjk;
     decimal_ascii := sample_decimal_ascii |}.

(* ===================================================================== *)
(** * What a pattern matches *)
(* ===================================================================== *)

Section Semantics.
Variable db : unicode_db.

(** [matches r seen rest caps seen' rest' caps']: from the cursor
    [(seen, rest)] with groups [caps] already captured, [r] can consume
    text up to the cursor [(seen', rest')], capturing up to [caps']. *)
Inductive matches
  : regex -> str -> str -> list str -> str -> str -> list str -> Prop :=
| M_Str s seen rest caps :
    matches (Str s) seen (s ++ rest) caps (rev s ++ seen) rest caps
| M_Class p c seen rest caps :
    p c = true ->
    matches (Class p) seen (c :: rest) caps (c :: seen) rest caps
| M_Star p l seen rest caps :
    forallb p l = true ->
    matches (Star p) seen (l ++ rest) caps (rev l ++ seen) rest caps
| M_Plus p l seen rest caps :
    l <> [] -> forallb p l = true ->
    matches (Plus p) seen (l ++ rest) caps (rev l ++ seen) rest caps
| M_Repeat n p l seen rest caps :
    length l = n -> forallb p l = true ->
    matches (Repeat n p) seen (l ++ rest) caps (rev l ++ seen) rest caps
| M_WordB seen rest caps :
    at_boundary db seen rest = true ->
    matches WordB seen rest caps seen rest caps
| M_Group r seen rest caps sn rs cs :
    matches r seen rest caps sn rs cs ->
    matches (Group r) seen rest caps sn rs
            (cs ++ [rev (firstn (length sn - length seen) sn)])
| M_Cat r1 r2 seen rest caps sn1 rs1 cs1 sn2 rs2 cs2 :
    matches r1 seen rest caps sn1 rs1 cs1 ->
    matches r2 sn1 rs1 cs1 sn2 rs2 cs2 ->
    matches (Cat r1 r2) seen rest caps sn2 rs2 cs2.
End Semantics.

(* ===================================================================== *)
(** * The vocabulary of the properties *)
(* ===================================================================== *)

(** The pattern matches at some position of the text (the text before
    [text] being [seen]). *)
Definition matches_somewhere (db : unicode_db) (r : regex) (seen text : str)
  : Prop :=
  exists pre post sn rs cs,
    text = pre ++ post /\ matches db r (rev pre ++ seen) post [] sn rs cs.

(** The number of issues a diagnosis holds, over its three lists. *)
Definition issue_count (h : HardIssues) : nat :=
  length (typos h) + length (citation_errors h) + length (term_misuses h).

Definition typo_hit (text : str) (entry : str * str) : bool :=
  contains text (fst entry).

Definition typo_line (entry : str * str) : str :=
  typo_issue (fst entry) (snd entry).

Definition pattern_hit (db : unicode_db) (text : str) (entry : regex * str)
  : bool :=
  match search db (fst entry) text with Some _ => true | None => false end.

(** The three-way classification and the two templates per bucket. *)
Definition curated (theory : str) : bool :=
  str_in theory western_canon || str_in theory china_specific.

Definition lineage_sentence (theory : str) : str :=
  if str_in theory western_canon then solid_western theory
  else if str_in theory china_specific then solid_chinese theory
  else solid_other theory.

Definition further_reading (theory : str) : str :=
  if str_in theory western_canon then missing_western theory
  else missing_chinese theory.

Definition needs_edition (classic : str) : bool :=
  str_in classic canonical_classics.

Definition notices_for (foreign_text : str) : list str :=
  match dict_get common_mistranslations foreign_text with
  | Some translation => [translation_notice foreign_text translation]
  | None => []
  end.

(** What the specification asks of the text. *)
Definition appear_in_order (a b text : str) : Prop :=
  exists p0 p1 p2, text = p0 ++ a ++ p1 ++ b ++ p2.

Definition appear_in_order3 (a b c text : str) : Prop :=
  exists p0 p1 p2 p3, text = p0 ++ a ++ p1 ++ b ++ p2 ++ c ++ p3.

(** What the patterns ask: [.] does not cross a line feed, and [\b]
    wants a word boundary. *)
Definition one_line (s : str) : Prop := forallb dot s = true.

Definition appear_on_one_line3 (a b c text : str) : Prop :=
  exists p0 p1 p2 p3,
    text = p0 ++ a ++ p1 ++ b ++ p2 ++ c ++ p3 /\ one_line p1 /\ one_line p2.

(** A word boundary between the text [left] and the text [right]. *)
Definition word_edge (db : unicode_db) (left right : str) : bool :=
  at_boundary db (rev left) right.

Definition appear_as_words_on_one_line
           (db : unicode_db) (a b text : str) : Prop :=
  exists p0 p1 p2,
    text = p0 ++ a ++ p1 ++ b ++ p2
    /\ word_edge db p0 (a ++ p1 ++ b ++ p2) = true
    /\ word_edge db (p0 ++ a) (p1 ++ b ++ p2) = true
    /\ one_line p1
    /\ word_edge db (p0 ++ a ++ p1) (b ++ p2) = true
    /\ word_edge db (p0 ++ a ++ p1 ++ b) p2 = true.

(** A span 《title》 of the text: a non-empty title that holds no closing
    mark, between the two marks. *)
Definition title_span (text pre title post : str) : Prop :=
  text = pre ++ open_title :: title ++ close_title :: post
  /\ title <> [] /\ ~ In close_title title.

(** Every opening mark of [pre] is closed inside [pre]. *)
Definition titles_closed (pre : str) : Prop :=
  forall p1 p2, pre = p1 ++ open_title :: p2 -> In close_title p2.

(** No position of the text starts a modern-paper citation. *)
Definition no_modern_citation (db : unicode_db) (text : str) : Prop :=
  ~ matches_somewhere db (modern_papers_pattern db) [] text.

(** ** Sample manuscripts *)

(** A manuscript naming two theories, for which the two sample iteration
    orders give two different reports. *)
Definition two_theories_text : str := u "从解构主义到现象学".

(** The two terms side by side in running text: both appear, in order,
    and nothing is emitted, since there is no word boundary between an
    ideograph and the next. *)
Definition running_text : str := u "解构主义和结构主义".

(** The three markers in order, on two lines. *)
Definition two_line_text : str := u "西方理论" ++ nl ++ u "中国".

(** Heidegger followed by an ideograph: the name is in the text, and so
    is the title, yet the name is not extracted as a token. *)
Definition running_citation_text : str := u "Heidegger认为《文心雕龙》体大思精".

(* ===================================================================== *)
(** * Text lemmas *)
(* ===================================================================== *)

Lemma str_eqb_eq (a b : str) : str_eqb a b = true <-> a = b.
Proof.
  revert b. induction a as [|x a IH]; intros [|y b]; simpl; split;
    try congruence; try reflexivity.
  - intros H. apply andb_true_iff in H as [H1 H2].
    apply N.eqb_eq in H1. apply IH in H2. congruence.
  - intros H. injection H as -> ->.
    rewrite N.eqb_refl. simpl. now apply IH.
Qed.

Lemma str_eqb_refl (a : str) : str_eqb a a = true.
Proof. now apply str_eqb_eq. Qed.

Lemma str_eqb_neq (a b : str) : str_eqb a b = false <-> a <> b.
Proof.
  split.
  - intros H E. apply str_eqb_eq in E. congruence.
  - intros H. destruct (str_eqb a b) eqn:E; [|reflexivity].
    apply str_eqb_eq in E. contradiction.
Qed.

Lemma str_in_In (x : str) (xs : list str) : str_in x xs = true <-> In x xs.
Proof.
  unfold str_in. rewrite existsb_exists. split.
  - intros (y & Hy & E). apply str_eqb_eq in E. now subst.
  - intros H. exists x. split; [assumption | apply str_eqb_refl].
Qed.

Lemma starts_with_spec (needle s : str) :
  starts_with needle s = true <-> exists post, s = needle ++ post.
Proof.
  revert s. induction needle as [|c needle IH]; intros s; simpl.
  - split; [intros _; now exists s | reflexivity].
  - destruct s as [|d s].
    + split; [discriminate | intros (post & H); discriminate].
    + rewrite andb_true_iff, N.eqb_eq, IH. split.
      * intros (-> & post & ->). now exists post.
      * intros (post & H). injection H as -> ->. split; [reflexivity|].
        now exists post.
Qed.

Lemma contains_spec (haystack needle : str) :
  contains haystack needle = true <-> occurs needle haystack.
Proof.
  unfold occurs. split.
  - induction haystack as [|c h IH]; simpl; intros H.
    + rewrite orb_false_r in H. apply starts_with_spec in H as (post & ->).
      now exists [], post.
    + apply orb_true_iff in H as [H | H].
      * apply starts_with_spec in H as (post & ->). now exists [], post.
      * destruct (IH H) as (pre & post & ->). now exists (c :: pre), post.
  - intros (pre & post & ->). induction pre as [|c pre IH].
    + simpl. assert (E : starts_with needle (needle ++ post) = true)
        by (apply starts_with_spec; now exists post).
      destruct (needle ++ post); simpl; now rewrite E.
    + simpl. rewrite IH. apply orb_true_r.
Qed.

Lemma contains_false (haystack needle : str) :
  contains haystack needle = false <-> ~ occurs needle haystack.
Proof.
  rewrite <- contains_spec. destruct (contains haystack needle); split;
    congruence.
Qed.

Lemma rev_cons_app (c : char) (l seen : str) :
  rev (c :: l) ++ seen = rev l ++ c :: seen.
Proof. simpl. now rewrite <- app_assoc. Qed.

Lemma rev_cursor {A : Type} (pre title p1 : list A) (o c : A) :
  rev (pre ++ o :: title ++ c :: p1)
  = rev p1 ++ rev (title ++ [c]) ++ o :: rev pre.
Proof.
  rewrite rev_app_distr. cbn [rev]. rewrite !rev_app_distr. cbn [rev app].
  rewrite <- !app_assoc. cbn [app]. reflexivity.
Qed.

Lemma captured (l seen : str) :
  rev (firstn (length (rev l ++ seen) - length seen) (rev l ++ seen)) = l.
Proof.
  rewrite length_app, Nat.add_sub.
  rewrite firstn_app, Nat.sub_diag, firstn_all. simpl.
  rewrite app_nil_r. apply rev_involutive.
Qed.

Lemma consumed (l seen : str) :
  (length (rev l ++ seen) - length seen)%nat = length l.
Proof. now rewrite length_app, Nat.add_sub, length_rev. Qed.

(* ===================================================================== *)
(** * The matcher finds exactly what the pattern matches *)
(* ===================================================================== *)

Section MatcherTheory.
Variable db : unicode_db.
Context {A : Type}.
Implicit Types (k : str -> str -> option A) (a : A).

Lemma lit_app s seen rest k :
  lit s seen (s ++ rest) k = k (rev s ++ seen) rest.
Proof.
  revert seen. induction s as [|c s IH]; intros seen; simpl; [reflexivity|].
  now rewrite N.eqb_refl, IH, <- app_assoc.
Qed.

Lemma lit_some s seen rest k a :
  lit s seen rest k = Some a ->
  exists rest', rest = s ++ rest' /\ k (rev s ++ seen) rest' = Some a.
Proof.
  revert seen rest. induction s as [|c s IH]; intros seen rest; simpl.
  - intros H. now exists rest.
  - destruct rest as [|d rest]; [discriminate|].
    destruct (c =? d) eqn:E; [|discriminate].
    apply N.eqb_eq in E. subst d. intros H.
    destruct (IH _ _ H) as (rest' & -> & Hk).
    exists rest'. split; [reflexivity|]. now rewrite <- app_assoc.
Qed.

Lemma many_some p rest seen k a :
  many p seen rest k = Some a ->
  exists l rest', rest = l ++ rest' /\ forallb p l = true
                  /\ k (rev l ++ seen) rest' = Some a.
Proof.
  revert seen. induction rest as [|c rest IH]; intros seen; simpl.
  - intros H. now exists [], [].
  - destruct (p c) eqn:Hp.
    + destruct (many p (c :: seen) rest k) as [a'|] eqn:E.
      * intros H. injection H as ->.
        destruct (IH _ E) as (l & rest' & -> & Hl & Hk).
        exists (c :: l), rest'. simpl. rewrite Hp, Hl, <- app_assoc.
        now repeat split.
      * intros H. now exists [], (c :: rest).
    + intros H. now exists [], (c :: rest).
Qed.

Lemma many_fallback p seen rest k :
  k seen rest <> None -> many p seen rest k <> None.
Proof.
  destruct rest as [|c rest]; simpl; [trivial|].
  destruct (p c); [|trivial].
  destruct (many p (c :: seen) rest k); [discriminate | trivial].
Qed.

Lemma many_complete p l seen rest k :
  forallb p l = true -> k (rev l ++ seen) rest <> None ->
  many p seen (l ++ rest) k <> None.
Proof.
  revert seen. induction l as [|c l IH]; intros seen Hl Hk.
  - now apply many_fallback.
  - simpl in Hl. apply andb_true_iff in Hl as [Hc Hl].
    simpl. rewrite Hc. rewrite rev_cons_app in Hk.
    specialize (IH _ Hl Hk).
    destruct (many p (c :: seen) (l ++ rest) k); [discriminate | contradiction].
Qed.

Lemma exactly_some n p rest seen k a :
  exactly n p seen rest k = Some a ->
  exists l rest', rest = l ++ rest' /\ length l = n /\ forallb p l = true
                  /\ k (rev l ++ seen) rest' = Some a.
Proof.
  revert seen rest. induction n as [|n IH]; intros seen rest; simpl.
  - intros H. now exists [], rest.
  - destruct rest as [|c rest]; [discriminate|].
    destruct (p c) eqn:Hp; [|discriminate]. intros H.
    destruct (IH _ _ H) as (l & rest' & -> & Hn & Hl & Hk).
    exists (c :: l), rest'. simpl. rewrite Hp, Hl, Hn, <- app_assoc.
    now repeat split.
Qed.

Lemma exactly_app p l seen rest k :
  forallb p l = true ->
  exactly (length l) p seen (l ++ rest) k = k (rev l ++ seen) rest.
Proof.
  revert seen. induction l as [|c l IH]; intros seen Hl; simpl; [reflexivity|].
  simpl in Hl. apply andb_true_iff in Hl as [Hc Hl].
  now rewrite Hc, IH, <- app_assoc.
Qed.
End MatcherTheory.

Section RunTheory.
Variable db : unicode_db.
Context {A : Type}.

(** Whatever the matcher returns comes from a match of the pattern. *)
Lemma run_sound (r : regex) :
  forall seen rest caps (k : str -> str -> list str -> option A) a,
    run db r seen rest caps k = Some a ->
    exists sn rs cs, matches db r seen rest caps sn rs cs /\ k sn rs cs = Some a.
Proof.
  induction r as [s|p|p|p|n p| |r IH|r1 IH1 r2 IH2]; intros seen rest caps k a; simpl.
  - intros H. apply lit_some in H as (rest' & -> & Hk).
    exists (rev s ++ seen), rest', caps. split; [constructor | assumption].
  - destruct rest as [|c rest]; [discriminate|].
    destruct (p c) eqn:Hp; [|discriminate]. intros H.
    exists (c :: seen), rest, caps. split; [now constructor | assumption].
  - intros H. apply many_some in H as (l & rest' & -> & Hl & Hk).
    exists (rev l ++ seen), rest', caps. split; [now constructor | assumption].
  - destruct rest as [|c rest]; [discriminate|].
    destruct (p c) eqn:Hp; [|discriminate]. intros H.
    apply many_some in H as (l & rest' & -> & Hl & Hk).
    exists (rev (c :: l) ++ seen), rest', caps. split.
    + apply (M_Plus db p (c :: l)); [discriminate|]. simpl. now rewrite Hp.
    + now rewrite rev_cons_app.
  - intros H. apply exactly_some in H as (l & rest' & -> & Hn & Hl & Hk).
    exists (rev l ++ seen), rest', caps. split; [now constructor | assumption].
  - destruct (at_boundary db seen rest) eqn:Hb; [|discriminate]. intros H.
    exists seen, rest, caps. split; [now constructor | assumption].
  - intros H. apply IH in H as (sn & rs & cs & Hm & Hk).
    eexists sn, rs, _. split; [constructor; eassumption | assumption].
  - intros H. apply IH1 in H as (sn1 & rs1 & cs1 & Hm1 & H).
    apply IH2 in H as (sn2 & rs2 & cs2 & Hm2 & Hk).
    exists sn2, rs2, cs2. split; [econstructor; eassumption | assumption].
Qed.

(** A match the continuation accepts is never missed. *)
Lemma run_complete (r : regex) :
  forall seen rest caps sn rs cs (k : str -> str -> list str -> option A),
    matches db r seen rest caps sn rs cs -> k sn rs cs <> None ->
    run db r seen rest caps k <> None.
Proof.
  intros seen rest caps sn rs cs k Hm. revert k.
  induction Hm as [s seen rest caps|p c seen rest caps Hp|p l seen rest caps Hl
                   |p l seen rest caps Hne Hl|n p l seen rest caps Hn Hl
                   |seen rest caps Hb|r seen rest caps sn rs cs Hm IH
                   |r1 r2 seen rest caps sn1 rs1 cs1 sn2 rs2 cs2 Hm1 IH1 Hm2 IH2];
    intros k Hk; simpl.
  - now rewrite lit_app.
  - now rewrite Hp.
  - now apply many_complete.
  - destruct l as [|c l]; [contradiction|]. simpl in *.
    apply andb_true_iff in Hl as [Hc Hl]. rewrite Hc.
    apply many_complete; [assumption|]. now rewrite <- rev_cons_app.
  - subst n. now rewrite exactly_app.
  - now rewrite Hb.
  - now apply IH.
  - apply IH1. now apply IH2.
Qed.
End RunTheory.

Section MatchTheory.
Variable db : unicode_db.

(** A match only moves the cursor forward and only adds groups. *)
Lemma matches_shape r seen rest caps sn rs cs :
  matches db r seen rest caps sn rs cs ->
  exists l new, rest = l ++ rs /\ sn = rev l ++ seen /\ cs = caps ++ new.
Proof.
  induction 1 as [s seen rest caps|p c seen rest caps Hp|p l seen rest caps Hl
                  |p l seen rest caps Hne Hl|n p l seen rest caps Hn Hl
                  |seen rest caps Hb|r seen rest caps sn rs cs Hm IH
                  |r1 r2 seen rest caps sn1 rs1 cs1 sn2 rs2 cs2 Hm1 IH1 Hm2 IH2].
  - exists s, []. now rewrite app_nil_r.
  - exists [c], []. now rewrite app_nil_r.
  - exists l, []. now rewrite app_nil_r.
  - exists l, []. now rewrite app_nil_r.
  - exists l, []. now rewrite app_nil_r.
  - exists [], []. now rewrite app_nil_r.
  - destruct IH as (l & new & -> & -> & ->).
    eexists l, _. rewrite <- app_assoc. now repeat split.
  - destruct IH1 as (l1 & new1 & -> & -> & ->).
    destruct IH2 as (l2 & new2 & -> & -> & ->).
    exists (l1 ++ l2), (new1 ++ new2).
    now rewrite rev_app_distr, !app_assoc.
Qed.

(** Reading a derivation backwards, constructor by constructor. *)
Lemma matches_Str_inv s seen rest caps sn rs cs :
  matches db (Str s) seen rest caps sn rs cs ->
  rest = s ++ rs /\ sn = rev s ++ seen /\ cs = caps.
Proof. intros H. inversion H; subst. now repeat split. Qed.

Lemma matches_Class_inv p seen rest caps sn rs cs :
  matches db (Class p) seen rest caps sn rs cs ->
  exists c, p c = true /\ rest = c :: rs /\ sn = c :: seen /\ cs = caps.
Proof. intros H. inversion H; subst. eexists. now repeat split. Qed.

Lemma matches_Star_inv p seen rest caps sn rs cs :
  matches db (Star p) seen rest caps sn rs cs ->
  exists l, forallb p l = true /\ rest = l ++ rs /\ sn = rev l ++ seen
            /\ cs = caps.
Proof. intros H. inversion H; subst. eexists. now repeat split. Qed.

Lemma matches_Plus_inv p seen rest caps sn rs cs :
  matches db (Plus p) seen rest caps sn rs cs ->
  exists l, l <> [] /\ forallb p l = true /\ rest = l ++ rs
            /\ sn = rev l ++ seen /\ cs = caps.
Proof. intros H. inversion H; subst. eexists. now repeat split. Qed.

Lemma matches_WordB_inv seen rest caps sn rs cs :
  matches db WordB seen rest caps sn rs cs ->
  at_boundary db seen rest = true /\ sn = seen /\ rs = rest /\ cs = caps.
Proof. intros H. inversion H; subst. now repeat split. Qed.

Lemma matches_Group_inv r seen rest caps sn rs cs :
  matches db (Group r) seen rest caps sn rs cs ->
  exists cs', matches db r seen rest caps sn rs cs'
              /\ cs = cs' ++ [rev (firstn (length sn - length seen) sn)].
Proof.
  intros H. inversion H; subst. eexists. split; [eassumption | reflexivity].
Qed.

Lemma matches_Cat_inv r1 r2 seen rest caps sn rs cs :
  matches db (Cat r1 r2) seen rest caps sn rs cs ->
  exists sn1 rs1 cs1, matches db r1 seen rest caps sn1 rs1 cs1
                      /\ matches db r2 sn1 rs1 cs1 sn rs cs.
Proof.
  intros H. inversion H; subst. eexists _, _, _. split; eassumption.
Qed.

(** The anchored attempt succeeds exactly when the pattern matches there,
    and what it reports is one of the pattern's matches. *)
Lemma match_at_sound r seen rest n cs :
  match_at db r seen rest = Some (n, cs) ->
  exists l rs, rest = l ++ rs /\ n = length l
               /\ matches db r seen rest [] (rev l ++ seen) rs cs.
Proof.
  unfold match_at. intros H.
  apply run_sound in H as (sn & rs & cs' & Hm & Hk).
  injection Hk as <- <-.
  destruct (matches_shape _ _ _ _ _ _ _ Hm) as (l & new & -> & -> & _).
  exists l, rs. now rewrite consumed.
Qed.

Lemma match_at_complete r seen rest sn rs cs :
  matches db r seen rest [] sn rs cs -> match_at db r seen rest <> None.
Proof.
  intros Hm. unfold match_at. eapply run_complete; [eassumption | discriminate].
Qed.

Lemma match_at_none r seen rest :
  match_at db r seen rest = None <->
  (forall sn rs cs, ~ matches db r seen rest [] sn rs cs).
Proof.
  split.
  - intros H sn rs cs Hm. now apply match_at_complete in Hm.
  - intros H. destruct (match_at db r seen rest) as [[n cs]|] eqn:E;
      [|reflexivity].
    apply match_at_sound in E as (l & rs & _ & _ & Hm). now apply H in Hm.
Qed.

Lemma search_from_spec r text seen :
  search_from db r seen text <> None <-> matches_somewhere db r seen text.
Proof.
  revert seen. induction text as [|c text IH]; intros seen.
  - simpl. destruct (match_at db r seen []) as [[n cs]|] eqn:E.
    + split; [intros _ | discriminate].
      apply match_at_sound in E as (l & rs & _ & _ & Hm).
      exists [], []. simpl. eauto.
    + split; [congruence|]. intros (pre & post & sn & rs & cs & Ht & Hm).
      destruct pre; [|discriminate]. simpl in *. subst post.
      now apply match_at_complete in Hm.
  - simpl. destruct (match_at db r seen (c :: text)) as [[n cs]|] eqn:E.
    + split; [intros _ | discriminate].
      apply match_at_sound in E as (l & rs & _ & _ & Hm).
      exists [], (c :: text). simpl. eauto.
    + rewrite IH. split.
      * intros (pre & post & sn & rs & cs & -> & Hm).
        exists (c :: pre), post, sn, rs, cs. split; [reflexivity|].
        now rewrite rev_cons_app.
      * intros (pre & post & sn & rs & cs & Ht & Hm).
        destruct pre as [|d pre]; simpl in Ht.
        -- subst post. now apply match_at_complete in Hm.
        -- injection Ht as <- ->. rewrite rev_cons_app in Hm.
           now exists pre, post, sn, rs, cs.
Qed.

Lemma search_spec r text :
  search db r text <> None <-> matches_somewhere db r [] text.
Proof. apply search_from_spec. Qed.
End MatchTheory.

(* ===================================================================== *)
(** * The Diagnoser *)
(* ===================================================================== *)

Section DiagnoserTheory.
Variable db : unicode_db.

Lemma typo_loop text (table : dict) (h : HardIssues) :
  let h' :=
      fold_left
        (fun h entry =>
           let '(typo, correct) := entry in
           if contains text typo then add_typo h (typo_issue typo correct)
           else h) table h in
  typos h' = typos h ++ map typo_line (filter (typo_hit text) table)
  /\ citation_errors h' = citation_errors h
  /\ term_misuses h' = term_misuses h.
Proof.
  revert h. induction table as [|[typo correct] table IH]; intros h; simpl.
  - now rewrite app_nil_r.
  - unfold typo_hit at 1. simpl. destruct (contains text typo).
    + destruct (IH (add_typo h (typo_issue typo correct))) as (E1 & E2 & E3).
      simpl in *. rewrite E1, E2, E3, <- app_assoc. now repeat split.
    + apply IH.
Qed.

Lemma pattern_loop text (patterns : list (regex * str)) (h : HardIssues) :
  let h' :=
      fold_left
        (fun h entry =>
           let '(pattern, description) := entry in
           match search db pattern text with
           | Some _ => add_term_misuse h description
           | None => h
           end) patterns h in
  typos h' = typos h
  /\ citation_errors h' = citation_errors h
  /\ term_misuses h' =
     term_misuses h ++ map snd (filter (pattern_hit db text) patterns).
Proof.
  revert h. induction patterns as [|[pattern description] patterns IH];
    intros h; simpl.
  - now rewrite app_nil_r.
  - unfold pattern_hit at 1. simpl. destruct (search db pattern text).
    + destruct (IH (add_term_misuse h description)) as (E1 & E2 & E3).
      simpl in *. rewrite E1, E2, E3, <- app_assoc. now repeat split.
    + apply IH.
Qed.

(** The three lists of a diagnosis, read off the two tables. *)
Lemma diagnose_with_lists table patterns text :
  typos (diagnose_with db table patterns text)
  = map typo_line (filter (typo_hit text) table)
  /\ citation_errors (diagnose_with db table patterns text) = []
  /\ term_misuses (diagnose_with db table patterns text)
     = map snd (filter (pattern_hit db text) patterns).
Proof.
  unfold diagnose_with.
  match goal with
  | |- context [fold_left ?f patterns ?h0] =>
    destruct (pattern_loop text patterns h0) as (E1 & E2 & E3)
  end.
  cbv zeta in E1, E2, E3. rewrite E1, E2, E3.
  match goal with
  | |- context [fold_left ?f table ?h0] =>
    destruct (typo_loop text table h0) as (F1 & F2 & F3)
  end.
  cbv zeta in F1, F2, F3. rewrite F1, F2, F3. now repeat split.
Qed.

Lemma dict_set_fresh (d : dict) (k v : str) :
  dict_has d k = false -> dict_set d k v = d ++ [(k, v)].
Proof.
  unfold dict_has. induction d as [|[k' v'] d IH]; simpl; [reflexivity|].
  destruct (str_eqb k' k); [discriminate|]. intros H. now rewrite IH.
Qed.

(** C10. Whatever the text, the diagnosis carries a [citation_errors]
    list and that list is empty: the issues of a diagnosis are its typos
    followed by its term misuses, and nothing else. *)
Theorem citation_errors_always_empty (text : str) :
  citation_errors (diagnose_paper db text) = []
  /\ concat (map snd (hard_issues_items (diagnose_paper db text)))
     = typos (diagnose_paper db text) ++ term_misuses (diagnose_paper db text)
  /\ issue_count (diagnose_paper db text)
     = (length (typos (diagnose_paper db text))
        + length (term_misuses (diagnose_paper db text)))%nat.
Proof.
  unfold diagnose_paper, issue_count.
  destruct (diagnose_with_lists common_typos term_misuses_patterns text)
    as (_ & E & _).
  simpl. rewrite E. simpl. rewrite app_nil_r, Nat.add_0_r. now repeat split.
Qed.

(** C7. Adding to the typo table a new entry whose incorrect form occurs
    in the text adds exactly one issue: the diagnosis gains the line of
    the new entry at the end of its typos and is otherwise unchanged. *)
Theorem new_typo_entry_adds_one_issue
        (table : dict) (patterns : list (regex * str)) (text : str)
        (typo correct : str) :
  dict_has table typo = false ->
  occurs typo text ->
  let before := diagnose_with db table patterns text in
  let after := diagnose_with db (dict_set table typo correct) patterns text in
  issue_count after = S (issue_count before)
  /\ typos after = typos before ++ [typo_issue typo correct]
  /\ citation_errors after = citation_errors before
  /\ term_misuses after = term_misuses before.
Proof.
  intros Hnew Hocc before after. subst before after. unfold issue_count.
  rewrite (dict_set_fresh _ _ _ Hnew).
  destruct (diagnose_with_lists table patterns text) as (E1 & E2 & E3).
  destruct (diagnose_with_lists (table ++ [(typo, correct)]) patterns text)
    as (F1 & F2 & F3).
  rewrite E1, E2, E3, F1, F2, F3.
  assert (Hhit : typo_hit text (typo, correct) = true)
    by now apply contains_spec.
  rewrite filter_app, map_app. simpl. rewrite Hhit. simpl.
  rewrite length_app. simpl. repeat split. lia.
Qed.
End DiagnoserTheory.

Lemma new_typo_entry_adds_one_issue_witness :
  dict_has common_typos (u "美学学") = false
  /\ occurs (u "美学学") (u "论美学学的解构论")
  /\ issue_count
       (diagnose_with sample_db (dict_set common_typos (u "美学学") (u "美学"))
                      term_misuses_patterns (u "论美学学的解构论"))
     = S (issue_count
            (diagnose_with sample_db common_typos term_misuses_patterns
                           (u "论美学学的解构论"))).
Proof.
  assert (Hnew : dict_has common_typos (u "美学学") = false)
    by (vm_compute; reflexivity).
  assert (Hocc : occurs (u "美学学") (u "论美学学的解构论"))
    by (apply contains_spec; vm_compute; reflexivity).
  split; [exact Hnew|]. split; [exact Hocc|].
  exact (proj1 (new_typo_entry_adds_one_issue sample_db common_typos
                  term_misuses_patterns (u "论美学学的解构论")
                  (u "美学学") (u "美学") Hnew Hocc)).
Defined.

(* ===================================================================== *)
(** * The Lineage Analyzer *)
(* ===================================================================== *)

Lemma lineage_step_eq (a : TheoreticalAnalysis) (theory : str) :
  lineage_step a theory
  = {| solid_theories := solid_theories a ++ [lineage_sentence theory];
       missing_literature :=
         missing_literature a
         ++ (if curated theory then [further_reading theory] else []) |}.
Proof.
  unfold lineage_step, lineage_sentence, further_reading, curated.
  destruct (str_in theory western_canon); [reflexivity|].
  destruct (str_in theory china_specific); simpl; now rewrite ?app_nil_r.
Qed.

Lemma lineage_loop (theories : list str) (a : TheoreticalAnalysis) :
  solid_theories (fold_left lineage_step theories a)
  = solid_theories a ++ map lineage_sentence theories
  /\ missing_literature (fold_left lineage_step theories a)
     = missing_literature a ++ map further_reading (filter curated theories).
Proof.
  revert a. induction theories as [|t theories IH]; intros a;
    cbn [fold_left map filter].
  - now rewrite !app_nil_r.
  - destruct (IH (lineage_step a t)) as (E1 & E2). rewrite E1, E2.
    rewrite lineage_step_eq. cbn [solid_theories missing_literature].
    rewrite <- !app_assoc. split; [reflexivity|].
    now destruct (curated t).
Qed.

Lemma lineage_lists (theories : list str) :
  analyze_theoretical_lineage theories
  = {| solid_theories := map lineage_sentence theories;
       missing_literature := map further_reading (filter curated theories) |}.
Proof.
  unfold analyze_theoretical_lineage.
  destruct (lineage_loop theories
              {| solid_theories := []; missing_literature := [] |}) as (E1 & E2).
  destruct (fold_left lineage_step theories _). simpl in *. congruence.
Qed.

(** C5. For every list of theory terms, the solid list holds exactly one
    template sentence per term, in order, and the missing list holds a
    recommended-reading line exactly for the terms of the two curated
    sets; a term outside both adds nothing to it. *)
Theorem lineage_one_sentence_per_term (theories : list str) :
  solid_theories (analyze_theoretical_lineage theories)
  = map lineage_sentence theories
  /\ length (solid_theories (analyze_theoretical_lineage theories))
     = length theories
  /\ missing_literature (analyze_theoretical_lineage theories)
     = map further_reading (filter curated theories)
  /\ (forall theory,
         curated theory = false ->
         missing_literature
           (analyze_theoretical_lineage (theories ++ [theory]))
         = missing_literature (analyze_theoretical_lineage theories)).
Proof.
  rewrite lineage_lists. cbn [solid_theories missing_literature].
  rewrite length_map. repeat split.
  intros theory Hc. rewrite lineage_lists. cbn [missing_literature].
  rewrite filter_app. simpl. rewrite Hc. now rewrite app_nil_r.
Qed.

Lemma lineage_one_sentence_per_term_witness :
  curated (u "叙事学") = false
  /\ solid_theories (analyze_theoretical_lineage [u "物感"; u "符号学"])
     = [lineage_sentence (u "物感"); lineage_sentence (u "符号学")]
  /\ missing_literature
       (analyze_theoretical_lineage ([u "物感"; u "符号学"] ++ [u "叙事学"]))
     = missing_literature (analyze_theoretical_lineage [u "物感"; u "符号学"]).
Proof.
  assert (Hc : curated (u "叙事学") = false) by (vm_compute; reflexivity).
  split; [exact Hc|]. split.
  - exact (proj1 (lineage_one_sentence_per_term [u "物感"; u "符号学"])).
  - exact (proj2 (proj2 (proj2 (lineage_one_sentence_per_term
                                  [u "物感"; u "符号学"])))
                 (u "叙事学") Hc).
Defined.

(* ===================================================================== *)
(** * The Interpretation Evaluator *)
(* ===================================================================== *)

(** C4. A text holding either keyword gets the upgraded labels and loses
    the issue on contemporary practice; a text holding neither gets the
    baseline labels and all three stock issues. The call never raises. *)
Theorem interpretation_upgrade (text : str) :
  (occurs (u "当代艺术") text \/ occurs (u "数字艺术") text ->
   exists e, evaluate_interpretation text = Ok e
             /\ depth e = u "较深" /\ originality e = u "较好"
             /\ issues e = [issue_surface; issue_forced]
             /\ ~ In (u "缺乏对当代艺术实践的观照") (issues e))
  /\ (~ occurs (u "当代艺术") text /\ ~ occurs (u "数字艺术") text ->
      evaluate_interpretation text
      = Ok {| depth := u "中等"; originality := u "一般";
              issues := [u "文本阐释较为表面，缺乏深入的文化语境分析";
                         u "理论与文本结合不够紧密，存在生搬硬套现象";
                         u "缺乏对当代艺术实践的观照"] |}).
Proof.
  unfold evaluate_interpretation. split.
  - intros H.
    assert (E : contains text (u "当代艺术") || contains text (u "数字艺术") = true).
    { apply orb_true_iff. destruct H as [H | H]; apply contains_spec in H; auto. }
    rewrite E. eexists. split; [reflexivity|]. repeat split.
    intros [F | [F | []]]; vm_compute in F; discriminate.
  - intros [H1 H2]. apply contains_false in H1, H2. now rewrite H1, H2.
Qed.

Lemma interpretation_upgrade_witness :
  (occurs (u "数字艺术") (u "论数字艺术的物感")
   /\ exists e, evaluate_interpretation (u "论数字艺术的物感") = Ok e
                /\ depth e = u "较深" /\ originality e = u "较好"
                /\ issues e = [issue_surface; issue_forced]
                /\ ~ In (u "缺乏对当代艺术实践的观照") (issues e))
  /\ (~ occurs (u "当代艺术") (u "论物感") /\ ~ occurs (u "数字艺术") (u "论物感"))
  /\ evaluate_interpretation (u "论物感")
     = Ok {| depth := u "中等"; originality := u "一般";
             issues := [u "文本阐释较为表面，缺乏深入的文化语境分析";
                        u "理论与文本结合不够紧密，存在生搬硬套现象";
                        u "缺乏对当代艺术实践的观照"] |}.
Proof.
  assert (H1 : occurs (u "数字艺术") (u "论数字艺术的物感"))
    by (apply contains_spec; vm_compute; reflexivity).
  assert (H2 : ~ occurs (u "当代艺术") (u "论物感")
               /\ ~ occurs (u "数字艺术") (u "论物感"))
    by (split; apply contains_false; vm_compute; reflexivity).
  split; [split; [exact H1|]|split; [exact H2|]].
  - exact (proj1 (interpretation_upgrade (u "论数字艺术的物感")) (or_intror H1)).
  - exact (proj2 (interpretation_upgrade (u "论物感")) H2).
Defined.

(* ===================================================================== *)
(** * The report *)
(* ===================================================================== *)

Lemma as_list_nil (order : set_order) : as_list order [] = [].
Proof.
  apply Permutation_nil, Permutation_sym. exact (as_list_perm order []).
Qed.

Lemma orders_agree_up_to_permutation (o1 o2 : set_order) (l : list str) :
  Permutation (as_list o1 l) (as_list o2 l).
Proof.
  eapply Permutation_trans; [apply as_list_perm|].
  apply Permutation_sym, as_list_perm.
Qed.

Lemma filter_permutation {A : Type} (f : A -> bool) (l l' : list A) :
  Permutation l l' -> Permutation (filter f l) (filter f l').
Proof.
  induction 1 as [|x l l' H IH|x y l|l l' l'' H1 IH1 H2 IH2]; simpl.
  - constructor.
  - destruct (f x); [now constructor | assumption].
  - destruct (f x), (f y); try apply Permutation_refl. constructor.
  - eapply Permutation_trans; eassumption.
Qed.

(** The evaluator never raises: the issue it removes is in its list. *)
Lemma evaluate_interpretation_total (text : str) :
  exists e, evaluate_interpretation text = Ok e.
Proof.
  unfold evaluate_interpretation.
  destruct (contains text (u "当代艺术") || contains text (u "数字艺术"));
    eexists; reflexivity.
Qed.

Section ReportTheory.
Variable db : unicode_db.

(** The report is assembled from the six analyses, whatever they are. *)
Lemma generate_review_report_ok (order : set_order) (now text : str) :
  exists e,
    evaluate_interpretation text = Ok e
    /\ generate_review_report db order now text
       = Ok {| title := report_title;
               date := now;
               diagnosis := diagnose_paper db text;
               perspective :=
                 {| core_theories := extract_core_theories db order text;
                    theoretical_lineage :=
                      analyze_theoretical_lineage
                        (extract_core_theories db order text);
                    interpretation_evaluation := e;
                    academic_position := position_label |};
               surgery :=
                 {| citation_issues :=
                      check_citations_accuracy (extract_citations db text);
                    aesthetic_analysis := review_aesthetic_logic db text;
                    restructuring_suggestions := restructuring |} |}.
Proof.
  destruct (evaluate_interpretation_total text) as (e & He).
  exists e. split; [assumption|].
  unfold generate_review_report. now rewrite He.
Qed.

(** C9. The empty manuscript has no theory terms, so the theory list of
    its report is empty, and the diagnosis section of the rendered report
    is the heading followed by the fallback line. *)
Theorem empty_manuscript_report (order : set_order) (now : str) :
  extract_core_theories db order [] = []
  /\ exists r,
      generate_review_report db order now [] = Ok r
      /\ core_theories (perspective r) = []
      /\ format_diagnosis (diagnosis r)
         = u "## 第一步：诊断结果" ++ nl ++ nl
             ++ u "### 硬伤列表" ++ nl ++ u "- 未发现明显的硬伤" ++ nl
      /\ format_report r
         = (u "# " ++ u "文学/美学/艺术学论文深度审核报告" ++ nl ++ nl
              ++ u "**审核日期**：" ++ now ++ nl ++ nl)
             ++ (u "## 第一步：诊断结果" ++ nl ++ nl
                   ++ u "### 硬伤列表" ++ nl ++ u "- 未发现明显的硬伤" ++ nl)
             ++ format_perspective (perspective r)
             ++ format_surgery (surgery r) ++ final_assessment.
Proof.
  assert (E : extract_core_theories db order [] = [])
    by (unfold extract_core_theories; apply as_list_nil).
  split; [assumption|].
  destruct (generate_review_report_ok order now []) as (e & _ & Hr).
  eexists. split; [exact Hr|]. cbn [perspective core_theories diagnosis].
  split; [assumption|].
  assert (D : format_diagnosis (diagnose_paper db [])
              = u "## 第一步：诊断结果" ++ nl ++ nl
                  ++ u "### 硬伤列表" ++ nl ++ u "- 未发现明显的硬伤" ++ nl)
    by reflexivity.
  split; [assumption|].
  unfold format_report. cbn [title date diagnosis perspective surgery].
  rewrite D. unfold report_title. now rewrite <- !app_assoc.
Qed.

(** C1, as the code has it. Two runs on the same text agree on every
    field of the report but the timestamp, provided theory terms are
    compared as a set: the theory list and the two lineage lists built
    from it hold the same entries in the iteration order of each run's
    set, and are equal when the two runs iterate sets alike. *)
Theorem reports_agree_up_to_set_order
        (o1 o2 : set_order) (now1 now2 text : str) :
  exists r1 r2,
    generate_review_report db o1 now1 text = Ok r1
    /\ generate_review_report db o2 now2 text = Ok r2
    /\ title r1 = title r2
    /\ diagnosis r1 = diagnosis r2
    /\ surgery r1 = surgery r2
    /\ interpretation_evaluation (perspective r1)
       = interpretation_evaluation (perspective r2)
    /\ academic_position (perspective r1) = academic_position (perspective r2)
    /\ Permutation (core_theories (perspective r1))
                   (core_theories (perspective r2))
    /\ Permutation (solid_theories (theoretical_lineage (perspective r1)))
                   (solid_theories (theoretical_lineage (perspective r2)))
    /\ Permutation (missing_literature (theoretical_lineage (perspective r1)))
                   (missing_literature (theoretical_lineage (perspective r2)))
    /\ ((forall l, as_list o1 l = as_list o2 l) ->
        perspective r1 = perspective r2).
Proof.
  destruct (generate_review_report_ok o1 now1 text) as (e1 & He1 & H1).
  destruct (generate_review_report_ok o2 now2 text) as (e2 & He2 & H2).
  assert (e1 = e2) by congruence. subst e2.
  eexists _, _. split; [exact H1|]. split; [exact H2|].
  cbn [title diagnosis surgery perspective interpretation_evaluation
       academic_position core_theories theoretical_lineage].
  assert (P : Permutation (extract_core_theories db o1 text)
                          (extract_core_theories db o2 text))
    by apply orders_agree_up_to_permutation.
  repeat split; try assumption.
  - rewrite !lineage_lists. cbn [solid_theories]. now apply Permutation_map.
  - rewrite !lineage_lists. cbn [missing_literature].
    now apply Permutation_map, filter_permutation.
  - intros Ho. unfold extract_core_theories. now rewrite Ho.
Qed.
End ReportTheory.

Lemma reports_differ_with_set_order :
  exists r1 r2,
    generate_review_report sample_db first_seen_order (u "2026-01-01 00:00:00")
                           two_theories_text = Ok r1
    /\ generate_review_report sample_db last_seen_order (u "2026-01-01 00:00:00")
                              two_theories_text = Ok r2
    /\ core_theories (perspective r1) = [u "解构主义"; u "现象学"]
    /\ core_theories (perspective r2) = [u "现象学"; u "解构主义"]
    /\ perspective r1 <> perspective r2
    /\ format_report r1 <> format_report r2.
Proof.
  eexists _, _. split; [reflexivity|]. split; [reflexivity|].
  split; [reflexivity|]. split; [reflexivity|].
  split; intros H; vm_compute in H; discriminate.
Qed.

Lemma reports_agree_up_to_set_order_witness :
  (forall l, as_list first_seen_order l = as_list first_seen_order l)
  /\ exists r1 r2,
      generate_review_report sample_db first_seen_order
                             (u "2026-01-01 00:00:00") two_theories_text = Ok r1
      /\ generate_review_report sample_db first_seen_order
                                (u "2026-01-02 00:00:00") two_theories_text = Ok r2
      /\ title r1 = title r2
      /\ diagnosis r1 = diagnosis r2
      /\ surgery r1 = surgery r2
      /\ perspective r1 = perspective r2.
Proof.
  split; [reflexivity|].
  destruct (reports_agree_up_to_set_order sample_db first_seen_order
              first_seen_order (u "2026-01-01 00:00:00")
              (u "2026-01-02 00:00:00") two_theories_text)
    as (r1 & r2 & H1 & H2 & Ht & Hd & Hs & _ & _ & _ & _ & _ & Hp).
  exists r1, r2. repeat split; try assumption.
  apply Hp. reflexivity.
Defined.

(* ===================================================================== *)
(** * Ordered co-occurrence: the two heuristics built on [.*] *)
(* ===================================================================== *)

Ltac invert_matches :=
  repeat match goal with
  | H : matches _ (Cat _ _) _ _ _ _ _ _ |- _ =>
    apply matches_Cat_inv in H as (? & ? & ? & ? & ?)
  | H : matches _ (Str _) _ _ _ _ _ _ |- _ =>
    apply matches_Str_inv in H as (? & ? & ?)
  | H : matches _ (Star _) _ _ _ _ _ _ |- _ =>
    apply matches_Star_inv in H as (? & ? & ? & ? & ?)
  | H : matches _ (Plus _) _ _ _ _ _ _ |- _ =>
    apply matches_Plus_inv in H as (? & ? & ? & ? & ? & ?)
  | H : matches _ (Class _) _ _ _ _ _ _ |- _ =>
    apply matches_Class_inv in H as (? & ? & ? & ? & ?)
  | H : matches _ WordB _ _ _ _ _ _ |- _ =>
    apply matches_WordB_inv in H as (? & ? & ? & ?)
  | H : matches _ (Group _) _ _ _ _ _ _ |- _ =>
    apply matches_Group_inv in H as (? & ? & ?)
  end.

Ltac str_neq := apply str_eqb_neq; vm_compute; reflexivity.

Section CoOccurrence.
Variable db : unicode_db.

Lemma transplant_search (text : str) :
  search db transplant_pattern text <> None
  <-> appear_on_one_line3 (u "西方") (u "理论") (u "中国") text.
Proof.
  rewrite search_spec. unfold matches_somewhere, appear_on_one_line3. split.
  - intros (pre & post & sn & rs & cs & -> & Hm).
    unfold transplant_pattern in Hm. invert_matches. subst.
    eexists pre, _, _, _. split; [reflexivity|]. split; assumption.
  - intros (p0 & p1 & p2 & p3 & -> & H1 & H2).
    eexists p0, _, _, _, _. split; [reflexivity|].
    unfold transplant_pattern.
    eapply M_Cat; [apply M_Str|].
    eapply M_Cat; [now apply M_Star|].
    eapply M_Cat; [apply M_Str|].
    eapply M_Cat; [now apply M_Star|].
    apply M_Str.
Qed.

(** C8, as the code has it. When 西方, 理论 and 中国 appear in that order
    with no line feed between the first and the last of them, the logic
    issues are exactly one theoretical-transplant warning. *)
Theorem transplant_warning_once (text : str) :
  appear_on_one_line3 (u "西方") (u "理论") (u "中国") text ->
  logic_issues (review_aesthetic_logic db text)
  = [u "存在将西方理论直接套用于中国艺术实践的倾向，需注意避免理论殖民"].
Proof.
  intros H. unfold review_aesthetic_logic. cbn [logic_issues].
  assert (Hw : contains text (u "西方") = true).
  { destruct H as (p0 & p1 & p2 & p3 & -> & _).
    apply contains_spec. now eexists p0, _. }
  assert (Hc : contains text (u "中国") = true).
  { destruct H as (p0 & p1 & p2 & p3 & -> & _).
    apply contains_spec.
    exists (p0 ++ u "西方" ++ p1 ++ u "理论" ++ p2), p3.
    now rewrite <- !app_assoc. }
  rewrite Hw, Hc. cbn [andb].
  apply transplant_search in H.
  destruct (search db transplant_pattern text); [reflexivity | contradiction].
Qed.

(** Without such an occurrence there is no warning at all. *)
Lemma transplant_warning_absent (text : str) :
  ~ appear_on_one_line3 (u "西方") (u "理论") (u "中国") text ->
  logic_issues (review_aesthetic_logic db text) = [].
Proof.
  intros H. unfold review_aesthetic_logic. cbn [logic_issues].
  destruct (contains text (u "西方") && contains text (u "中国"));
    [|reflexivity].
  destruct (search db transplant_pattern text) eqn:E; [|reflexivity].
  exfalso. apply H, transplant_search. congruence.
Qed.

Lemma confusion_search (a b text : str) :
  search db (confusion_pattern a b) text <> None
  <-> appear_as_words_on_one_line db a b text.
Proof.
  rewrite search_spec.
  unfold matches_somewhere, appear_as_words_on_one_line, word_edge. split.
  - intros (pre & post & sn & rs & cs & -> & Hm).
    unfold confusion_pattern in Hm. invert_matches. subst.
    rewrite app_nil_r in *.
    eexists pre, _, _. split; [reflexivity|].
    rewrite !rev_app_distr, <- !app_assoc. now repeat split.
  - intros (p0 & p1 & p2 & -> & E1 & E2 & Hl & E3 & E4).
    rewrite !rev_app_distr, <- ?app_assoc in *.
    eexists p0, _, _, _, _. split; [reflexivity|]. rewrite app_nil_r.
    unfold confusion_pattern.
    eapply M_Cat; [now apply M_WordB|].
    eapply M_Cat; [apply M_Str|].
    eapply M_Cat; [now apply M_WordB|].
    eapply M_Cat; [now apply M_Star|].
    eapply M_Cat; [now apply M_WordB|].
    eapply M_Cat; [apply M_Str|].
    now apply M_WordB.
Qed.

Lemma pattern_hit_confusion (a b d text : str) :
  pattern_hit db text (confusion_pattern a b, d) = true
  <-> appear_as_words_on_one_line db a b text.
Proof.
  rewrite <- confusion_search. unfold pattern_hit. cbn [fst].
  destruct (search db (confusion_pattern a b) text); split;
    congruence.
Qed.

Lemma emitted_of_two {P : Type} (f : P * str -> bool) (p1 p2 : P)
      (d1 d2 : str) :
  d1 <> d2 ->
  (In d1 (map snd (filter f [(p1, d1); (p2, d2)])) <-> f (p1, d1) = true)
  /\ (In d2 (map snd (filter f [(p1, d1); (p2, d2)])) <-> f (p2, d2) = true).
Proof.
  intros Hne. cbn [filter].
  destruct (f (p1, d1)), (f (p2, d2)); cbn [map snd In]; split; split;
    intros H; try reflexivity; try discriminate; try tauto;
      try (destruct H as [H | H]; [now subst | tauto]);
      try (destruct H as [H | H]; [now symmetry in H | tauto]).
Qed.

(** C2, as the code has it. For every pair of the term-confusion list,
    the description is emitted exactly when the text holds the first term
    between two word boundaries and, later on the same line, the second
    term between two word boundaries. *)
Theorem confusion_emitted_iff (text a b description : str) :
  In (confusion_pattern a b, description) term_misuses_patterns ->
  (In description (term_misuses (diagnose_paper db text))
   <-> appear_as_words_on_one_line db a b text).
Proof.
  intros Hin. unfold diagnose_paper.
  destruct (diagnose_with_lists db common_typos term_misuses_patterns text)
    as (_ & _ & E).
  rewrite E. clear E. unfold term_misuses_patterns in *.
  assert (N12 : u "混淆了解构主义和结构主义" <> u "混淆了物感和物化概念") by str_neq.
  destruct (emitted_of_two (pattern_hit db text)
              (confusion_pattern (u "解构主义") (u "结构主义"))
              (confusion_pattern (u "物感") (u "物化")) _ _ N12) as (H1 & H2).
  destruct Hin as [Hin | [Hin | []]]; injection Hin as <- <- <-.
  - rewrite H1. apply pattern_hit_confusion.
  - rewrite H2. apply pattern_hit_confusion.
Qed.
End CoOccurrence.

Lemma confusion_missed_in_running_text :
  In (confusion_pattern (u "解构主义") (u "结构主义"), u "混淆了解构主义和结构主义")
     term_misuses_patterns
  /\ appear_in_order (u "解构主义") (u "结构主义") running_text
  /\ term_misuses (diagnose_paper sample_db running_text) = [].
Proof.
  split; [left; reflexivity|]. split; [|reflexivity].
  exists [], (u "和"), []. reflexivity.
Qed.

Lemma confusion_emitted_iff_witness :
  In (confusion_pattern (u "解构主义") (u "结构主义"), u "混淆了解构主义和结构主义")
     term_misuses_patterns
  /\ (In (u "混淆了解构主义和结构主义")
         (term_misuses (diagnose_paper sample_db (u "解构主义, 结构主义")))
      <-> appear_as_words_on_one_line sample_db (u "解构主义") (u "结构主义")
                                      (u "解构主义, 结构主义")).
Proof.
  assert (Hin : In (confusion_pattern (u "解构主义") (u "结构主义"),
                    u "混淆了解构主义和结构主义") term_misuses_patterns)
    by (left; reflexivity).
  split; [exact Hin|].
  exact (confusion_emitted_iff sample_db (u "解构主义, 结构主义")
           (u "解构主义") (u "结构主义") (u "混淆了解构主义和结构主义") Hin).
Defined.

Lemma transplant_missed_across_lines :
  occurs (u "西方") two_line_text
  /\ occurs (u "中国") two_line_text
  /\ appear_in_order3 (u "西方") (u "理论") (u "中国") two_line_text
  /\ logic_issues (review_aesthetic_logic sample_db two_line_text) = [].
Proof.
  split; [apply contains_spec; reflexivity|].
  split; [apply contains_spec; reflexivity|].
  split; [|reflexivity].
  exists [], [], nl, []. reflexivity.
Qed.

Lemma transplant_warning_once_witness :
  appear_on_one_line3 (u "西方") (u "理论") (u "中国") (u "西方的理论在中国")
  /\ logic_issues (review_aesthetic_logic sample_db (u "西方的理论在中国"))
     = [u "存在将西方理论直接套用于中国艺术实践的倾向，需注意避免理论殖民"].
Proof.
  assert (H : appear_on_one_line3 (u "西方") (u "理论") (u "中国")
                                  (u "西方的理论在中国")).
  { exists [], (u "的"), (u "在"), [].
    split; [vm_compute; reflexivity|]. split; vm_compute; reflexivity. }
  split; [exact H|].
  exact (transplant_warning_once sample_db (u "西方的理论在中国") H).
Defined.

(* ===================================================================== *)
(** * Scanning: what [findall] collects *)
(* ===================================================================== *)

Section ScanTheory.
Variable db : unicode_db.
Variable r : regex.

(** Positions the scan steps over are not attempted. *)
Lemma findall_skip (l : str) (seen rest : str) :
  findall_from db r (length l) seen (l ++ rest)
  = findall_from db r 0 (rev l ++ seen) rest.
Proof.
  revert seen. induction l as [|c l IH]; intros seen; [reflexivity|].
  cbn [length app findall_from]. now rewrite IH, rev_cons_app.
Qed.

(** A stretch of text with no match at any of its positions adds nothing. *)
Lemma findall_quiet (pre : str) (seen rest : str) :
  (forall p1 p2, pre = p1 ++ p2 -> p2 <> [] ->
                 match_at db r (rev p1 ++ seen) (p2 ++ rest) = None) ->
  findall_from db r 0 seen (pre ++ rest)
  = findall_from db r 0 (rev pre ++ seen) rest.
Proof.
  revert seen. induction pre as [|c pre IH]; intros seen H; [reflexivity|].
  cbn [app findall_from].
  assert (E : match_at db r seen (c :: pre ++ rest) = None)
    by (apply (H [] (c :: pre) eq_refl); discriminate).
  rewrite E, IH, rev_cons_app; [reflexivity|].
  intros p1 p2 -> Hne. rewrite <- rev_cons_app. now apply H.
Qed.

Lemma findall_nothing (rest : str) (seen : str) :
  (forall p1 p2, rest = p1 ++ p2 ->
                 match_at db r (rev p1 ++ seen) p2 = None) ->
  findall_from db r 0 seen rest = [].
Proof.
  revert seen. induction rest as [|c rest IH]; intros seen H.
  - cbn [findall_from].
    assert (E : match_at db r seen [] = None) by apply (H [] [] eq_refl).
    now rewrite E.
  - cbn [findall_from].
    assert (E : match_at db r seen (c :: rest) = None)
      by apply (H [] (c :: rest) eq_refl).
    rewrite E. apply IH. intros p1 p2 ->. rewrite <- rev_cons_app. now apply H.
Qed.

(** A match at a position is collected when no earlier match runs over
    that position. *)
Lemma findall_reaches (pre : str) :
  forall (skip : nat) (seen rest : str) (m : found),
    (skip <= length pre)%nat ->
    (forall p1 p2 n cs,
        pre = p1 ++ p2 -> p2 <> [] ->
        match_at db r (rev p1 ++ seen) (p2 ++ rest) = Some (n, cs) ->
        (n <= length p2)%nat) ->
    In m (findall_from db r 0 (rev pre ++ seen) rest) ->
    In m (findall_from db r skip seen (pre ++ rest)).
Proof.
  induction pre as [|c pre IH]; intros skip seen rest m Hs Hin Hm.
  - simpl in Hs. now replace skip with 0%nat by lia.
  - assert (Hin' : forall p1 p2 n cs,
               pre = p1 ++ p2 -> p2 <> [] ->
               match_at db r (rev p1 ++ c :: seen) (p2 ++ rest) = Some (n, cs) ->
               (n <= length p2)%nat).
    { intros p1 p2 n cs -> Hne E. rewrite <- rev_cons_app in E.
      now apply (Hin (c :: p1) p2 n cs). }
    rewrite rev_cons_app in Hm. cbn [length] in Hs.
    destruct skip as [|skip]; cbn [app findall_from].
    + destruct (match_at db r seen (c :: pre ++ rest)) as [[n cs]|] eqn:E.
      * right. apply IH; [|assumption|assumption].
        assert (n <= length (c :: pre))%nat
          by (apply (Hin [] (c :: pre) n cs); [reflexivity|discriminate|exact E]).
        cbn [length] in *. lia.
      * apply IH; [lia|assumption|assumption].
    + apply IH; [lia|assumption|assumption].
Qed.
End ScanTheory.

(* ===================================================================== *)
(** * Bracketed titles *)
(* ===================================================================== *)

Lemma other_than_all (x : char) (l : str) :
  forallb (other_than x) l = true <-> ~ In x l.
Proof.
  induction l as [|c l IH]; simpl.
  - split; [intros _ [] | reflexivity].
  - rewrite andb_true_iff, IH. unfold other_than.
    rewrite negb_true_iff, N.eqb_neq. split.
    + intros [H1 H2] [H | H]; [now subst | contradiction].
    + intros H. split; [intros E | intros E]; apply H; [left | right]; auto.
Qed.

Lemma in_split_first {A : Type} (dec : forall a b : A, {a = b} + {a <> b})
      (x : A) (l : list A) :
  In x l -> exists l1 l2, l = l1 ++ x :: l2 /\ ~ In x l1.
Proof.
  induction l as [|c l IH]; [intros []|].
  intros H. destruct (dec c x) as [-> | Hne].
  - exists [], l. split; [reflexivity | intros []].
  - destruct H as [H | H]; [contradiction|].
    destruct (IH H) as (l1 & l2 & -> & Hn).
    exists (c :: l1), l2. split; [reflexivity|].
    intros [E | E]; [contradiction | now apply Hn].
Qed.

(** The text up to the first occurrence of a character is determined. *)
Lemma split_at_first {A : Type} (x : A) (l1 l2 r1 r2 : list A) :
  l1 ++ x :: r1 = l2 ++ x :: r2 -> ~ In x l1 -> ~ In x l2 ->
  l1 = l2 /\ r1 = r2.
Proof.
  revert l2. induction l1 as [|c l1 IH]; intros [|d l2] E H1 H2; simpl in *.
  - injection E as ->. now split.
  - injection E as -> _. exfalso. apply H2. now left.
  - injection E as -> _. exfalso. apply H1. now left.
  - injection E as -> E.
    destruct (IH l2 E) as [-> ->]; [tauto | tauto | now split].
Qed.

Section TitleTheory.
Variable db : unicode_db.

Lemma title_match_sound (seen rest : str) (n : nat) (cs : list str) :
  match_at db chinese_classics_pattern seen rest = Some (n, cs) ->
  exists title post,
    rest = open_title :: title ++ close_title :: post
    /\ title <> [] /\ ~ In close_title title
    /\ n = S (S (length title)) /\ cs = [title].
Proof.
  intros H. apply match_at_sound in H as (l & rs & -> & -> & Hm).
  unfold chinese_classics_pattern in Hm.
  apply matches_Cat_inv in Hm as (s1 & r1 & c1 & Ho & Hm).
  apply matches_Str_inv in Ho as (Et & E1 & E2). subst s1 c1.
  apply matches_Cat_inv in Hm as (s2 & r2 & c2 & Hg & Hc).
  apply matches_Group_inv in Hg as (c3 & Hg & E3). subst c2.
  apply matches_Plus_inv in Hg as (title & Hne & Hn & E4 & E5 & E6).
  subst r1 s2 c3.
  apply matches_Str_inv in Hc as (E7 & _ & E8). subst r2 cs.
  rewrite captured.
  rewrite !app_assoc in Et. apply app_inv_tail in Et. subst l.
  apply other_than_all in Hn.
  exists title, rs. repeat split; try assumption.
  - cbn [app]. now rewrite <- app_assoc.
  - rewrite !length_app. cbn [length]. unfold str, char in *. lia.
Qed.

(** At the opening mark of a span, the attempt succeeds with its title. *)
Lemma title_match_complete (seen title post : str) :
  title <> [] -> ~ In close_title title ->
  match_at db chinese_classics_pattern seen
           (open_title :: title ++ close_title :: post)
  = Some (S (S (length title)), [title]).
Proof.
  intros Hne Hn.
  destruct (match_at db chinese_classics_pattern seen
                     (open_title :: title ++ close_title :: post))
    as [[n cs]|] eqn:E.
  - apply title_match_sound in E
      as (title' & post' & Ht & _ & Hn' & -> & ->).
    injection Ht as Ht.
    destruct (split_at_first _ _ _ _ _ Ht Hn Hn') as [<- _]. reflexivity.
  - exfalso. revert E. eapply match_at_complete.
    unfold chinese_classics_pattern.
    eapply M_Cat; [apply (M_Str db [open_title])|].
    eapply M_Cat; [|apply (M_Str db [close_title])].
    apply M_Group, M_Plus; [assumption | now apply other_than_all].
Qed.

Lemma title_match_span (pre rest : str) (n : nat) (cs : list str) :
  match_at db chinese_classics_pattern (rev pre) rest = Some (n, cs) ->
  exists title post, title_span (pre ++ rest) pre title post.
Proof.
  intros H. apply title_match_sound in H
    as (title & post & -> & Hne & Hn & _ & _).
  exists title, post. now repeat split.
Qed.

(** With a single span in the whole text, [findall] returns its title. *)
Lemma lone_title_found (text pre title post : str) :
  title_span text pre title post ->
  (forall pre' title' post',
      title_span text pre' title' post' ->
      pre' = pre /\ title' = title /\ post' = post) ->
  findall1 db chinese_classics_pattern text = [title].
Proof.
  intros (-> & Hne & Hn) Huniq.
  unfold findall1, finditer.
  rewrite findall_quiet.
  - rewrite app_nil_r. cbn [findall_from].
    rewrite title_match_complete by assumption.
    replace (pred (S (S (length title))))
      with (length (title ++ [close_title]))
      by (rewrite length_app; cbn [length]; lia).
    replace (title ++ close_title :: post)
      with ((title ++ [close_title]) ++ post)
      by (now rewrite <- app_assoc).
    rewrite findall_skip, findall_nothing.
    + reflexivity.
    + intros p1 p2 -> .
      destruct (match_at db chinese_classics_pattern
                         (rev p1 ++ rev (title ++ [close_title])
                              ++ open_title :: rev pre) p2)
        as [[n cs]|] eqn:E; [exfalso | reflexivity].
      replace (rev p1 ++ rev (title ++ [close_title]) ++ open_title :: rev pre)
        with (rev (pre ++ open_title :: title ++ close_title :: p1)) in E.
      * apply title_match_span in E as (title' & post' & Hs).
        rewrite <- !app_assoc in Hs. cbn [app] in Hs.
        rewrite <- !app_assoc in Hs. cbn [app] in Hs.
        apply Huniq in Hs as (Hp & _).
        apply (f_equal (@length char)) in Hp.
        rewrite length_app in Hp. cbn [length] in Hp. lia.
      * apply rev_cursor.
  - intros p1 p2 -> Hp2. rewrite app_nil_r.
    destruct (match_at db chinese_classics_pattern (rev p1)
                       (p2 ++ open_title :: title ++ close_title :: post))
      as [[n cs]|] eqn:E; [exfalso | reflexivity].
    apply title_match_span in E as (title' & post' & Hs).
    rewrite app_assoc in Hs. apply Huniq in Hs as (Hp & _).
    apply (f_equal (@length char)) in Hp. rewrite length_app in Hp.
    destruct p2; [contradiction | cbn [length] in Hp; lia].
Qed.
End TitleTheory.

Lemma unique_occurrence {A : Type} (x : A) (l1 l2 r1 r2 : list A) :
  l1 ++ x :: r1 = l2 ++ x :: r2 -> ~ In x l1 -> ~ In x r1 ->
  l1 = l2 /\ r1 = r2.
Proof.
  revert l2. induction l1 as [|c l1 IH]; intros [|d l2] E H1 H2; simpl in *.
  - injection E as ->. now split.
  - injection E as -> ->. exfalso. apply H2, in_elt.
  - injection E as -> _. exfalso. apply H1. now left.
  - injection E as -> E.
    destruct (IH l2 E) as [-> ->]; [tauto | tauto | now split].
Qed.

(** A text with a single opening mark has at most one span. *)
Lemma single_open_unique (text pre title post : str) :
  title_span text pre title post ->
  ~ In open_title pre -> ~ In open_title title -> ~ In open_title post ->
  forall pre' title' post',
    title_span text pre' title' post' ->
    pre' = pre /\ title' = title /\ post' = post.
Proof.
  intros (-> & Hne & Hn) Hp Ht Hq pre' title' post' (E & Hne' & Hn').
  apply unique_occurrence in E as [-> E]; [|assumption|].
  - apply split_at_first in E as [-> ->]; auto.
  - intros H. apply in_app_or in H as [H | [H | H]]; auto.
    discriminate H.
Qed.

Section CitationExtraction.
Variable db : unicode_db.

Lemma no_modern_citation_found (text : str) :
  no_modern_citation db text ->
  findall_groups db (modern_papers_pattern db) text = [].
Proof.
  intros H. unfold findall_groups, finditer.
  rewrite findall_nothing; [reflexivity|].
  intros p1 p2 ->. rewrite app_nil_r.
  destruct (match_at db (modern_papers_pattern db) (rev p1) p2)
    as [[n cs]|] eqn:E; [exfalso | reflexivity].
  apply match_at_sound in E as (l & rs & -> & _ & Hm).
  apply H. exists p1, (l ++ rs). rewrite app_nil_r. eauto.
Qed.

(** C6. A text with exactly one bracketed title and no modern-paper
    citation yields one classical reference, the title, and no modern
    paper. *)
Theorem one_title_one_classic (text pre title post : str) :
  title_span text pre title post ->
  (forall pre' title' post',
      title_span text pre' title' post' ->
      pre' = pre /\ title' = title /\ post' = post) ->
  no_modern_citation db text ->
  chinese_classics (extract_citations db text) = [title]
  /\ length (chinese_classics (extract_citations db text)) = 1%nat
  /\ modern_papers (extract_citations db text) = [].
Proof.
  intros Hs Hu Hm. unfold extract_citations.
  cbn [chinese_classics modern_papers].
  rewrite (lone_title_found db text pre title post Hs Hu).
  rewrite (no_modern_citation_found text Hm). now repeat split.
Qed.
End CitationExtraction.

Lemma one_title_one_classic_witness :
  title_span (u "刘勰《文心雕龙》云") (u "刘勰") (u "文心雕龙") (u "云")
  /\ (forall pre' title' post',
         title_span (u "刘勰《文心雕龙》云") pre' title' post' ->
         pre' = u "刘勰" /\ title' = u "文心雕龙" /\ post' = u "云")
  /\ no_modern_citation sample_db (u "刘勰《文心雕龙》云")
  /\ chinese_classics (extract_citations sample_db (u "刘勰《文心雕龙》云"))
     = [u "文心雕龙"]
  /\ length (chinese_classics
               (extract_citations sample_db (u "刘勰《文心雕龙》云"))) = 1%nat
  /\ modern_papers (extract_citations sample_db (u "刘勰《文心雕龙》云")) = [].
Proof.
  assert (Hs : title_span (u "刘勰《文心雕龙》云") (u "刘勰") (u "文心雕龙") (u "云")).
  { split; [vm_compute; reflexivity|]. split; [discriminate|].
    apply other_than_all. vm_compute. reflexivity. }
  assert (Hu : forall pre' title' post',
             title_span (u "刘勰《文心雕龙》云") pre' title' post' ->
             pre' = u "刘勰" /\ title' = u "文心雕龙" /\ post' = u "云").
  { apply single_open_unique; [exact Hs | | | ];
      apply other_than_all; vm_compute; reflexivity. }
  assert (Hm : no_modern_citation sample_db (u "刘勰《文心雕龙》云")).
  { intros H. apply search_spec in H. apply H. vm_compute. reflexivity. }
  split; [exact Hs|]. split; [exact Hu|]. split; [exact Hm|].
  exact (one_title_one_classic sample_db (u "刘勰《文心雕龙》云")
           (u "刘勰") (u "文心雕龙") (u "云") Hs Hu Hm).
Defined.

(* ===================================================================== *)
(** * Foreign tokens *)
(* ===================================================================== *)

Section ForeignTokens.
Variable db : unicode_db.

Lemma letter_is_word (c : char) : ascii_letter c = true -> is_word db c = true.
Proof.
  intros H. assert (Hc : c < 128).
  { unfold ascii_letter, ascii_upper, ascii_lower in H.
    apply orb_true_iff in H as [H | H];
      apply andb_true_iff in H as [_ H]; apply N.leb_le in H; lia. }
  rewrite (word_ascii db c Hc). unfold ascii_word. now rewrite H.
Qed.

Lemma upper_is_letter (c : char) : ascii_upper c = true -> ascii_letter c = true.
Proof. unfold ascii_letter. now intros ->. Qed.

(** Right after a run of letters there is a word character on the left. *)
Lemma word_before_letters (c : char) (l seen : str) :
  forallb ascii_letter (c :: l) = true ->
  word_before db (rev l ++ c :: seen) = true.
Proof.
  intros H. rewrite forallb_forall in H.
  destruct (rev l) as [|x l'] eqn:E; cbn [app word_before].
  - apply letter_is_word, H. now left.
  - apply letter_is_word, H. right. apply in_rev. rewrite E. now left.
Qed.

(** A run of letters that ends on a word boundary ends at one place. *)
Lemma letter_run_end (l l' rs rs' : str) :
  l ++ rs = l' ++ rs' ->
  forallb ascii_letter l = true -> forallb ascii_letter l' = true ->
  word_after db rs = false -> word_after db rs' = false ->
  l = l'.
Proof.
  intros E Hl Hl' Hr Hr'. rewrite forallb_forall in Hl, Hl'.
  apply app_eq_app in E as (m & [[-> ->] | [-> ->]]).
  - destruct m as [|x m]; [now rewrite app_nil_r|]. exfalso.
    cbn [app word_after] in Hr'. rewrite letter_is_word in Hr'; [discriminate|].
    apply Hl, in_or_app. right. now left.
  - destruct m as [|x m]; [now rewrite app_nil_r|]. exfalso.
    cbn [app word_after] in Hr. rewrite letter_is_word in Hr; [discriminate|].
    apply Hl', in_or_app. right. now left.
Qed.

Lemma token_match_sound (seen rest : str) (n : nat) (cs : list str) :
  match_at db foreign_texts_pattern seen rest = Some (n, cs) ->
  exists c l rs,
    rest = c :: l ++ rs
    /\ ascii_upper c = true /\ l <> [] /\ forallb ascii_letter l = true
    /\ n = S (length l) /\ cs = [c :: l]
    /\ at_boundary db seen rest = true
    /\ word_after db rs = false.
Proof.
  intros H. apply match_at_sound in H as (t & rs & -> & -> & Hm).
  unfold foreign_texts_pattern in Hm.
  apply matches_Cat_inv in Hm as (s1 & r1 & c1 & Hb & Hm).
  apply matches_WordB_inv in Hb as (Hb & E1 & E2 & E3). subst s1 r1 c1.
  apply matches_Cat_inv in Hm as (s2 & r2 & c2 & Hg & He).
  apply matches_Group_inv in Hg as (c3 & Hg & E4). subst c2.
  apply matches_Cat_inv in Hg as (s3 & r3 & c4 & Hu & Hp).
  apply matches_Class_inv in Hu as (c0 & Hc0 & Et & E5 & E6). subst s3 c4.
  apply matches_Plus_inv in Hp as (l0 & Hne & Hl0 & E7 & E8 & E9).
  subst r3 s2 c3.
  apply matches_WordB_inv in He as (He & _ & E10 & E11). subst r2 cs.
  change (c0 :: l0 ++ rs) with ((c0 :: l0) ++ rs) in Et.
  apply app_inv_tail in Et. subst t.
  assert (Hall : forallb ascii_letter (c0 :: l0) = true).
  { cbn [forallb]. rewrite upper_is_letter by assumption. assumption. }
  exists c0, l0, rs. repeat split; try assumption.
  - cbn [app]. now rewrite <- (rev_cons_app c0 l0 seen), captured.
  - unfold at_boundary in He.
    rewrite (word_before_letters c0 l0 seen Hall) in He.
    now destruct (word_after db rs).
Qed.

(** A capitalised run of letters standing as a word of its own is what
    the attempt at its first letter reports. *)
Lemma token_match_complete (seen : str) (c : char) (l rs : str) :
  ascii_upper c = true -> l <> [] -> forallb ascii_letter l = true ->
  word_before db seen = false -> word_after db rs = false ->
  match_at db foreign_texts_pattern seen (c :: l ++ rs)
  = Some (S (length l), [c :: l]).
Proof.
  intros Hc Hne Hl Hb Ha.
  assert (Hall : forallb ascii_letter (c :: l) = true).
  { cbn [forallb]. rewrite upper_is_letter by assumption. assumption. }
  destruct (match_at db foreign_texts_pattern seen (c :: l ++ rs))
    as [[n cs]|] eqn:E.
  - apply token_match_sound in E
      as (c' & l' & rs' & Ht & _ & _ & Hl' & -> & -> & _ & Ha').
    injection Ht as <- Ht.
    now rewrite (letter_run_end l l' rs rs' Ht Hl Hl' Ha Ha').
  - exfalso. revert E. eapply match_at_complete.
    unfold foreign_texts_pattern.
    eapply M_Cat.
    { apply M_WordB. unfold at_boundary. rewrite Hb. cbn [word_after xorb].
      now apply letter_is_word, upper_is_letter. }
    eapply M_Cat.
    { apply M_Group. eapply M_Cat; [now apply M_Class|].
      now apply M_Plus. }
    apply M_WordB. unfold at_boundary.
    rewrite (word_before_letters c l seen Hall), Ha. reflexivity.
Qed.
End ForeignTokens.

(* ===================================================================== *)
(** * The Citation Auditor *)
(* ===================================================================== *)

Lemma reminder_loop (classics acc : list str) :
  fold_left
    (fun acc classic =>
       if str_in classic canonical_classics
       then acc ++ [classic_reminder classic] else acc) classics acc
  = acc ++ map classic_reminder (filter needs_edition classics).
Proof.
  revert acc. induction classics as [|c classics IH]; intros acc;
    cbn [fold_left filter map].
  - now rewrite app_nil_r.
  - rewrite IH. unfold needs_edition at 2.
    destruct (str_in c canonical_classics); cbn [map];
      now rewrite <- ?app_assoc.
Qed.

Lemma notice_loop (tokens acc : list str) :
  fold_left
    (fun acc foreign_text =>
       match dict_get common_mistranslations foreign_text with
       | Some translation =>
         acc ++ [translation_notice foreign_text translation]
       | None => acc
       end) tokens acc
  = acc ++ flat_map notices_for tokens.
Proof.
  revert acc. induction tokens as [|t tokens IH]; intros acc;
    cbn [fold_left flat_map].
  - now rewrite app_nil_r.
  - rewrite IH. unfold notices_for at 2.
    destruct (dict_get common_mistranslations t); cbn [app];
      now rewrite <- ?app_assoc.
Qed.

Lemma check_citations_lists (c : Citations) :
  check_citations_accuracy c
  = map classic_reminder (filter needs_edition (chinese_classics c))
        ++ flat_map notices_for (foreign_texts c).
Proof.
  unfold check_citations_accuracy. now rewrite reminder_loop, notice_loop.
Qed.

Section CitationAudit.
Variable db : unicode_db.

(** A title that is not inside another, still open one is extracted. *)
Lemma closed_title_found (pre title post : str) :
  titles_closed pre -> title <> [] -> ~ In close_title title ->
  In title
     (findall1 db chinese_classics_pattern
               (pre ++ open_title :: title ++ close_title :: post)).
Proof.
  intros Hc Hne Hn. unfold findall1.
  apply (in_map (fun m : found => hd [] (snd m)) _
                (firstn (S (S (length title)))
                        (open_title :: title ++ close_title :: post),
                 [title])).
  unfold finditer. apply findall_reaches; [apply Nat.le_0_l| |].
  - intros p1 p2 n cs -> Hp2 E.
    apply title_match_sound in E
      as (title' & post' & Et & _ & Hn' & -> & _).
    destruct p2 as [|c p2]; [contradiction|].
    injection Et as -> Et.
    destruct (in_split_first N.eq_dec close_title p2 (Hc p1 p2 eq_refl))
      as (q1 & q2 & -> & Hq).
    rewrite <- app_assoc in Et. cbn [app] in Et.
    destruct (split_at_first _ _ _ _ _ Et Hq Hn') as [<- _].
    cbn [length]. rewrite length_app. cbn [length]. unfold str, char in *. lia.
  - cbn [findall_from]. rewrite title_match_complete by assumption.
    now left.
Qed.

(** A capitalised word standing on its own is extracted. *)
Lemma whole_word_found (pre : str) (c : char) (l post : str) :
  ascii_upper c = true -> l <> [] -> forallb ascii_letter l = true ->
  word_before db (rev pre) = false -> word_after db post = false ->
  In (c :: l) (findall1 db foreign_texts_pattern (pre ++ c :: l ++ post)).
Proof.
  intros Hc Hne Hl Hb Ha. unfold findall1.
  apply (in_map (fun m : found => hd [] (snd m)) _
                (firstn (S (length l)) (c :: l ++ post), [c :: l])).
  unfold finditer. apply findall_reaches; [apply Nat.le_0_l| |].
  - intros p1 p2 n cs -> Hp2 E.
    apply token_match_sound in E
      as (c' & l' & rs & Et & Hc' & _ & Hl' & -> & _ & _ & _).
    change (c' :: l' ++ rs) with ((c' :: l') ++ rs) in Et.
    apply app_eq_app in Et as (m & [[-> _] | [Et _]]).
    + rewrite length_app. cbn [length]. lia.
    + destruct m as [|x m].
      * rewrite app_nil_r in Et. rewrite <- Et. cbn [length]. lia.
      * exfalso. rewrite rev_app_distr in Hb.
        assert (Hall : forall y, In y p2 -> is_word db y = true).
        { intros y Hy. apply letter_is_word.
          assert (Hin : In y (c' :: l')) by (rewrite Et; apply in_or_app; now left).
          destruct Hin as [<- | Hin]; [now apply upper_is_letter|].
          rewrite forallb_forall in Hl'. now apply Hl'. }
        destruct (rev p2) as [|y q] eqn:Er.
        -- apply (f_equal (@rev char)) in Er. rewrite rev_involutive in Er.
           now subst p2.
        -- cbn [app word_before] in Hb. rewrite Hall in Hb; [discriminate|].
           apply in_rev. rewrite Er. now left.
  - rewrite app_nil_r. cbn [findall_from].
    rewrite token_match_complete by assumption. now left.
Qed.

(** C3, as the code has it. When 《文心雕龙》 occurs outside any title
    left open before it, and Heidegger occurs as a word of its own (a
    word boundary on each side), the audit holds both the reminder for
    文心雕龙 and the translation notice for Heidegger. *)
Theorem citation_audit_scenario (text : str) :
  ~ occurs (u "海德格尔") text ->
  (exists pre post,
      text = pre ++ u "《文心雕龙》" ++ post /\ titles_closed pre) ->
  (exists pre post,
      text = pre ++ u "Heidegger" ++ post
      /\ word_edge db pre (u "Heidegger" ++ post) = true
      /\ word_edge db (pre ++ u "Heidegger") post = true) ->
  In (u "《文心雕龙》引用时应标注具体版本和页码")
     (check_citations_accuracy (extract_citations db text))
  /\ In (u "Heidegger的标准译名为" ++ dq ++ u "海德格尔" ++ dq
           ++ u "，请检查译名是否规范")
        (check_citations_accuracy (extract_citations db text)).
Proof.
  intros _ (pre1 & post1 & E1 & Hc) (pre2 & post2 & E2 & Hb & Ha).
  rewrite check_citations_lists. unfold extract_citations.
  cbn [chinese_classics foreign_texts]. split; apply in_or_app.
  - left.
    assert (R : u "《文心雕龙》引用时应标注具体版本和页码"
                = classic_reminder (u "文心雕龙")) by (vm_compute; reflexivity).
    rewrite R. apply in_map, filter_In.
    split; [|vm_compute; reflexivity].
    assert (T : u "《文心雕龙》" ++ post1
                = open_title :: u "文心雕龙" ++ close_title :: post1)
      by (vm_compute; reflexivity).
    rewrite E1, T.
    apply closed_title_found; [assumption | discriminate |].
    apply other_than_all. vm_compute. reflexivity.
  - right. apply in_flat_map. exists (u "Heidegger"). split.
    + assert (T : u "Heidegger" ++ post2 = 72 :: u "eidegger" ++ post2)
        by (vm_compute; reflexivity).
      assert (Hh : is_word db 72 = true)
        by (apply letter_is_word; vm_compute; reflexivity).
      assert (Hr : is_word db 114 = true)
        by (apply letter_is_word; vm_compute; reflexivity).
      assert (W : u "Heidegger" = 72 :: u "eidegger")
        by (vm_compute; reflexivity).
      rewrite E2, T. rewrite W at 1.
      apply whole_word_found.
      * vm_compute. reflexivity.
      * discriminate.
      * vm_compute. reflexivity.
      * unfold word_edge, at_boundary in Hb. rewrite T in Hb.
        cbn [word_after] in Hb. rewrite Hh in Hb.
        now destruct (word_before db (rev pre2)).
      * unfold word_edge, at_boundary in Ha. rewrite rev_app_distr in Ha.
        assert (V : rev (u "Heidegger") = 114 :: rev (u "Heidegge"))
          by (vm_compute; reflexivity).
        rewrite V in Ha. cbn [app word_before] in Ha. rewrite Hr in Ha.
        now destruct (word_after db post2).
    + assert (Nf : notices_for (u "Heidegger")
                   = [u "Heidegger的标准译名为" ++ dq ++ u "海德格尔" ++ dq
                        ++ u "，请检查译名是否规范"])
        by (vm_compute; reflexivity).
      rewrite Nf. now left.
Qed.
End CitationAudit.

Lemma citation_audit_misses_adjacent_name :
  ~ occurs (u "海德格尔") running_citation_text
  /\ occurs (u "Heidegger") running_citation_text
  /\ occurs (u "《文心雕龙》") running_citation_text
  /\ check_citations_accuracy (extract_citations sample_db running_citation_text)
     = [u "《文心雕龙》引用时应标注具体版本和页码"]
  /\ ~ In (translation_notice (u "Heidegger") (u "海德格尔"))
          (check_citations_accuracy
             (extract_citations sample_db running_citation_text)).
Proof.
  split; [apply contains_false; vm_compute; reflexivity|].
  split; [apply contains_spec; vm_compute; reflexivity|].
  split; [apply contains_spec; vm_compute; reflexivity|].
  split; [vm_compute; reflexivity|].
  intros H. vm_compute in H. destruct H as [H | []]. discriminate H.
Qed.

Lemma citation_audit_scenario_witness :
  ~ occurs (u "海德格尔") (u "Heidegger 论《文心雕龙》")
  /\ (exists pre post,
         u "Heidegger 论《文心雕龙》" = pre ++ u "《文心雕龙》" ++ post
         /\ titles_closed pre)
  /\ (exists pre post,
         u "Heidegger 论《文心雕龙》" = pre ++ u "Heidegger" ++ post
         /\ word_edge sample_db pre (u "Heidegger" ++ post) = true
         /\ word_edge sample_db (pre ++ u "Heidegger") post = true)
  /\ In (u "《文心雕龙》引用时应标注具体版本和页码")
        (check_citations_accuracy
           (extract_citations sample_db (u "Heidegger 论《文心雕龙》")))
  /\ In (u "Heidegger的标准译名为" ++ dq ++ u "海德格尔" ++ dq
           ++ u "，请检查译名是否规范")
        (check_citations_accuracy
           (extract_citations sample_db (u "Heidegger 论《文心雕龙》"))).
Proof.
  assert (H0 : ~ occurs (u "海德格尔") (u "Heidegger 论《文心雕龙》"))
    by (apply contains_false; vm_compute; reflexivity).
  assert (H1 : exists pre post,
             u "Heidegger 论《文心雕龙》" = pre ++ u "《文心雕龙》" ++ post
             /\ titles_closed pre).
  { exists (u "Heidegger 论"), []. split; [vm_compute; reflexivity|].
    intros p1 p2 E. exfalso.
    assert (H : In open_title (u "Heidegger 论"))
      by (rewrite E; apply in_elt).
    revert H. apply other_than_all. vm_compute. reflexivity. }
  assert (H2 : exists pre post,
             u "Heidegger 论《文心雕龙》" = pre ++ u "Heidegger" ++ post
             /\ word_edge sample_db pre (u "Heidegger" ++ post) = true
             /\ word_edge sample_db (pre ++ u "Heidegger") post = true).
  { exists [], (u " 论《文心雕龙》").
    split; [vm_compute; reflexivity|]. split; vm_compute; reflexivity. }
  split; [exact H0|]. split; [exact H1|]. split; [exact H2|].
  exact (citation_audit_scenario sample_db (u "Heidegger 论《文心雕龙》")
           H0 H1 H2).
Defined.

(* ===================================================================== *)
(** * The sample manuscripts under any Unicode table *)
(* ===================================================================== *)

(** The sample manuscripts are written in ASCII and ideographs (and the
    two title marks, which no [\b] of the script ever decides on), so
    what the pipeline does on them is the same for every table, the
    interpreter's included. *)

(** On two lines the warning is missed whatever the table: the pattern
    has no [\b]. *)
Lemma two_lines_never_warned (db : unicode_db) :
  logic_issues (review_aesthetic_logic db two_line_text) = [].
Proof.
  unfold review_aesthetic_logic. cbn [logic_issues]. vm_compute. reflexivity.
Qed.

(** In running text the confusion is missed whatever the table: 义 and 和
    are ideographs, so no word boundary separates them. *)
Lemma running_text_never_flagged (db : unicode_db) :
  term_misuses (diagnose_paper db running_text) = [].
Proof.
  unfold diagnose_paper.
  destruct (diagnose_with_lists db common_typos term_misuses_patterns
                                running_text) as (_ & _ & E).
  rewrite E. clear E. unfold term_misuses_patterns. cbn [filter].
  assert (H1 : pattern_hit db running_text
                 (confusion_pattern (u "解构主义") (u "结构主义"),
                  u "混淆了解构主义和结构主义") = false).
  { apply not_true_is_false. intros H.
    apply pattern_hit_confusion in H
      as (p0 & p1 & p2 & E & _ & Hedge & _).
    assert (Et : running_text = 35299 :: u "构主义和结构主义")
      by (vm_compute; reflexivity).
    assert (Ea : u "解构主义" = 35299 :: u "构主义")
      by (vm_compute; reflexivity).
    assert (Eb : u "结构主义" = 32467 :: u "构主义")
      by (vm_compute; reflexivity).
    assert (Er : u "构主义和结构主义" = u "构主义" ++ 21644 :: 32467 :: u "构主义")
      by (vm_compute; reflexivity).
    assert (Ev : rev (u "解构主义") = 20041 :: rev (u "解构主"))
      by (vm_compute; reflexivity).
    rewrite Et, Ea, Eb in E. cbn [app] in E.
    apply (unique_occurrence 35299 [] p0) in E as [<- E];
      [|intros [] | apply other_than_all; vm_compute; reflexivity].
    rewrite Er in E. apply app_inv_head in E.
    apply (unique_occurrence 32467 [21644] p1) in E as [<- _];
      [|apply other_than_all; vm_compute; reflexivity
       |apply other_than_all; vm_compute; reflexivity].
    unfold word_edge, at_boundary in Hedge.
    cbn [app] in Hedge. rewrite Ev in Hedge.
    cbn [word_before word_after] in Hedge.
    rewrite !(word_cjk db) in Hedge by (vm_compute; reflexivity).
    discriminate. }
  assert (H2 : pattern_hit db running_text
                 (confusion_pattern (u "物感") (u "物化"),
                  u "混淆了物感和物化概念") = false).
  { apply not_true_is_false. intros H.
    apply pattern_hit_confusion in H as (p0 & p1 & p2 & E & _).
    assert (Ea : u "物感" = 29289 :: u "感") by (vm_compute; reflexivity).
    assert (Hin : In 29289 running_text).
    { rewrite E, Ea. apply in_or_app. right. now left. }
    revert Hin. apply other_than_all. vm_compute. reflexivity. }
  rewrite H1, H2. reflexivity.
Qed.

(** The one capital letter of a text fixes where a token can start. *)
Lemma first_satisfying {A : Type} (P : A -> bool) (x y : A)
      (l1 l2 r1 r2 : list A) :
  l1 ++ x :: r1 = l2 ++ y :: r2 ->
  P y = true -> forallb (fun c => negb (P c)) l1 = true ->
  forallb (fun c => negb (P c)) r1 = true ->
  l1 = l2 /\ x = y /\ r1 = r2.
Proof.
  revert l2. induction l1 as [|c l1 IH]; intros [|d l2] E Hy H1 H2;
    cbn [app forallb] in *.
  - injection E as -> ->. now repeat split.
  - injection E as -> ->. exfalso.
    rewrite forallb_app in H2. cbn [forallb] in H2. rewrite Hy in H2.
    cbn in H2. rewrite !andb_false_r in H2. discriminate.
  - injection E as -> _. rewrite Hy in H1. discriminate.
  - injection E as -> E. apply andb_true_iff in H1 as [_ H1].
    destruct (IH l2 E Hy H1 H2) as (-> & -> & ->). now repeat split.
Qed.

(** A name directly followed by an ideograph is no token, whatever the
    table. *)
Lemma adjacent_name_never_extracted (db : unicode_db) :
  foreign_texts (extract_citations db running_citation_text) = [].
Proof.
  unfold extract_citations. cbn [foreign_texts]. unfold findall1, finditer.
  rewrite findall_nothing; [reflexivity|].
  intros p1 p2 Et. rewrite app_nil_r.
  destruct (match_at db foreign_texts_pattern (rev p1) p2) as [[n cs]|] eqn:E;
    [exfalso | reflexivity].
  apply token_match_sound in E
    as (c & l & rs & -> & Hc & Hne & Hl & _ & _ & _ & Ha).
  assert (T : running_citation_text
              = [] ++ 72 :: u "eidegger" ++ u "认为《文心雕龙》体大思精")
    by (vm_compute; reflexivity).
  rewrite T in Et.
  apply (first_satisfying ascii_upper) in Et as (_ & _ & Et);
    [|assumption | reflexivity | vm_compute; reflexivity].
  rewrite forallb_forall in Hl.
  assert (W : u "认为《文心雕龙》体大思精" = 35748 :: u "为《文心雕龙》体大思精")
    by (vm_compute; reflexivity).
  assert (Hw : is_word db 35748 = true)
    by (apply word_cjk; vm_compute; reflexivity).
  apply app_eq_app in Et as (m & [[E1 E2] | [E1 E2]]).
  - subst rs. destruct m as [|x m].
    + rewrite app_nil_l, W in Ha. cbn [word_after] in Ha. congruence.
    + rewrite <- app_comm_cons in Ha. cbn [word_after] in Ha.
      rewrite (letter_is_word db) in Ha; [discriminate|].
      assert (Hin : In x (u "eidegger"))
        by (rewrite E1; apply in_or_app; right; now left).
      assert (Hall : forallb ascii_letter (u "eidegger") = true)
        by (vm_compute; reflexivity).
      rewrite forallb_forall in Hall. now apply Hall.
  - destruct m as [|x m].
    + rewrite app_nil_l in E2. subst rs. rewrite W in Ha.
      cbn [word_after] in Ha. congruence.
    + assert (Hx : ascii_letter x = true).
      { apply Hl. rewrite E1. apply in_or_app. right. now left. }
      rewrite W, <- app_comm_cons in E2. injection E2 as <- _.
      vm_compute in Hx. discriminate.
Qed.

Lemma adjacent_name_never_noticed (db : unicode_db) :
  ~ In (translation_notice (u "Heidegger") (u "海德格尔"))
       (check_citations_accuracy (extract_citations db running_citation_text)).
Proof.
  rewrite check_citations_lists, adjacent_name_never_extracted.
  cbn [flat_map]. rewrite app_nil_r. intros H.
  apply in_map_iff in H as (c & E & _).
  unfold classic_reminder, translation_notice in E.
  assert (E1 : u "《" = [12298]) by (vm_compute; reflexivity).
  assert (E2 : u "Heidegger" = 72 :: u "eidegger") by (vm_compute; reflexivity).
  rewrite E1, E2 in E. cbn [app] in E. discriminate E.
Qed.

(* ===================================================================== *)
(** * Sample runs *)
(* ===================================================================== *)

Example run_extract_theories :
  extract_core_theories sample_db first_seen_order
                        (u "Postmodernism 与解构主义，再论解构主义")
  = [u "解构主义"; u "Postmodernism"].
Proof. vm_compute. reflexivity. Qed.

Example run_extract_citations :
  extract_citations sample_db
    (u "张三《文心雕龙研究》，《文学评论》2020年第3期。Hegel says")
  = {| chinese_classics := [u "文心雕龙研究"; u "文学评论"];
       foreign_texts := [u "Hegel"];
       modern_papers :=
         [[u "张三"; u "文心雕龙研究"; u "文学评论"; u "2020"; u "3"]] |}.
Proof. vm_compute. reflexivity. Qed.

Example run_diagnose :
  diagnose_paper sample_db (u "黑格尔的解构论。解构主义, 结构主义")
  = {| typos := [typo_issue (u "黑格尔") (u "海德格尔");
                 typo_issue (u "解构论") (u "解构主义")];
       citation_errors := [];
       term_misuses := [u "混淆了解构主义和结构主义"] |}.
Proof. vm_compute. reflexivity. Qed.

Example run_nested_title :
  chinese_classics (extract_citations sample_db (u "《《文心雕龙》"))
  = [u "《文心雕龙"].
Proof. vm_compute. reflexivity. Qed.

Example run_lineage :
  analyze_theoretical_lineage [u "物感"; u "符号学"]
  = {| solid_theories := [solid_chinese (u "物感"); solid_other (u "符号学")];
       missing_literature := [missing_chinese (u "物感")] |}.
Proof. vm_compute. reflexivity. Qed.

(* ===================================================================== *)
(** * What the scans return *)
(* ===================================================================== *)

Section ScanSoundness.
Variable db : unicode_db.
Variable r : regex.

(** Whatever [findall] collects was matched at some position. *)
Lemma findall_sound (rest : str) :
  forall (skip : nat) (seen : str) (m : found),
    In m (findall_from db r skip seen rest) ->
    exists p1 p2 n cs,
      rest = p1 ++ p2
      /\ match_at db r (rev p1 ++ seen) p2 = Some (n, cs)
      /\ m = (firstn n p2, cs).
Proof.
  induction rest as [|c rest IH]; intros skip seen m H.
  - destruct skip as [|skip]; cbn [findall_from] in H; [|destruct H].
    destruct (match_at db r seen []) as [[n cs]|] eqn:E; [|destruct H].
    destruct H as [<- | []]. now exists [], [], n, cs.
  - assert (Hrec : forall skip',
               In m (findall_from db r skip' (c :: seen) rest) ->
               exists p1 p2 n cs,
                 c :: rest = p1 ++ p2
                 /\ match_at db r (rev p1 ++ seen) p2 = Some (n, cs)
                 /\ m = (firstn n p2, cs)).
    { intros skip' H'. apply IH in H' as (p1 & p2 & n & cs & -> & E & Hm).
      exists (c :: p1), p2, n, cs. rewrite rev_cons_app. now repeat split. }
    destruct skip as [|skip]; cbn [findall_from] in H; [|now apply Hrec in H].
    destruct (match_at db r seen (c :: rest)) as [[n cs]|] eqn:E.
    + destruct H as [<- | H]; [|now apply Hrec in H].
      now exists [], (c :: rest), n, cs.
    + now apply Hrec in H.
Qed.

(** Matches do not overlap: if each takes at least [k] characters, the
    text has room for no more than its length divided by [k]. *)
Lemma findall_bound (k : nat) :
  (1 <= k)%nat ->
  (forall seen rest n cs,
      match_at db r seen rest = Some (n, cs) -> (k <= n)%nat) ->
  forall (rest : str) (skip : nat) (seen : str),
    (k * length (findall_from db r skip seen rest)
     <= length rest - skip)%nat.
Proof.
  intros Hk Hmin. induction rest as [|c rest IH]; intros skip seen.
  - destruct skip as [|skip]; cbn [findall_from length]; [|lia].
    destruct (match_at db r seen []) as [[n cs]|] eqn:E; cbn [length]; [|lia].
    assert (k <= n)%nat by (eapply Hmin; eassumption).
    apply match_at_sound in E as (l & rs & El & -> & _).
    symmetry in El. apply app_eq_nil in El as [-> _]. cbn [length] in *. lia.
  - destruct skip as [|skip]; cbn [findall_from].
    + destruct (match_at db r seen (c :: rest)) as [[n cs]|] eqn:E.
      * assert (k <= n)%nat by (eapply Hmin; eassumption).
        apply match_at_sound in E as (l & rs & El & -> & _).
        assert (length l <= length (c :: rest))%nat
          by (rewrite El, length_app; lia).
        specialize (IH (pred (length l)) (c :: seen)).
        cbn [length] in *. lia.
      * specialize (IH 0%nat (c :: seen)). cbn [length]. lia.
    + specialize (IH skip (c :: seen)). cbn [length]. lia.
Qed.

Lemma finditer_bound (k : nat) (text : str) :
  (1 <= k)%nat ->
  (forall seen rest n cs,
      match_at db r seen rest = Some (n, cs) -> (k <= n)%nat) ->
  (k * length (finditer db r text) <= length text)%nat.
Proof.
  intros Hk Hmin. unfold finditer.
  pose proof (findall_bound k Hk Hmin text 0%nat []). lia.
Qed.
End ScanSoundness.

(* ===================================================================== *)
(** * The Lexical Extractor *)
(* ===================================================================== *)

(** A token of the text with a word boundary on each side. *)
Definition stands_as_word (db : unicode_db) (token text : str) : Prop :=
  exists pre post,
    text = pre ++ token ++ post
    /\ word_edge db pre (token ++ post) = true
    /\ word_edge db (pre ++ token) post = true.

Lemma found_keywords_filter (text : str) :
  found_keywords text = filter (contains text) theory_keywords.
Proof.
  unfold found_keywords.
  assert (G : forall l acc,
             fold_left
               (fun found_theories theory =>
                  if contains text theory then found_theories ++ [theory]
                  else found_theories) l acc
             = acc ++ filter (contains text) l).
  { induction l as [|t l IH]; intros acc; cbn [fold_left filter].
    - now rewrite app_nil_r.
    - rewrite IH. destruct (contains text t); now rewrite <- ?app_assoc. }
  rewrite (G theory_keywords []). apply app_nil_l.
Qed.

Lemma firstn_length_app {A : Type} (l rs : list A) :
  firstn (length l) (l ++ rs) = l.
Proof.
  rewrite firstn_app, Nat.sub_diag, firstn_all. cbn [firstn].
  apply app_nil_r.
Qed.

Section ExtractionTheory.
Variable db : unicode_db.

Lemma english_match_sound (seen rest : str) (n : nat) (cs : list str) :
  match_at db english_theory_pattern seen rest = Some (n, cs) ->
  exists c l rs,
    rest = (c :: l ++ u "ism") ++ rs
    /\ n = length (c :: l ++ u "ism")
    /\ ascii_upper c = true /\ forallb ascii_letter l = true
    /\ at_boundary db seen rest = true
    /\ at_boundary db (rev (c :: l ++ u "ism") ++ seen) rs = true.
Proof.
  intros H. apply match_at_sound in H as (t & rs & -> & -> & Hm).
  unfold english_theory_pattern in Hm.
  apply matches_Cat_inv in Hm as (s1 & r1 & c1 & Hb & Hm).
  apply matches_WordB_inv in Hb as (Hb & E1 & E2 & E3). subst s1 r1 c1.
  apply matches_Cat_inv in Hm as (s2 & r2 & c2 & Hu & Hm).
  apply matches_Class_inv in Hu as (c0 & Hc0 & Et & E4 & E5). subst s2 c2.
  apply matches_Cat_inv in Hm as (s3 & r3 & c3 & Hs & Hm).
  apply matches_Star_inv in Hs as (l0 & Hl0 & E6 & E7 & E8). subst r2 s3 c3.
  apply matches_Cat_inv in Hm as (s4 & r4 & c4 & Hi & He).
  apply matches_Str_inv in Hi as (E9 & E10 & E11). subst r3 s4 c4.
  apply matches_WordB_inv in He as (He & Es & E12 & _). subst r4.
  assert (Et' : t ++ rs = (c0 :: l0 ++ u "ism") ++ rs).
  { rewrite Et. cbn [app]. now rewrite <- app_assoc. }
  apply app_inv_tail in Et'. subst t.
  exists c0, l0, rs. repeat split; try assumption.
  rewrite Es. exact He.
Qed.

Lemma classics_sound (text title : str) :
  In title (chinese_classics (extract_citations db text)) ->
  exists pre post, title_span text pre title post.
Proof.
  unfold extract_citations. cbn [chinese_classics]. unfold findall1, finditer.
  intros H. apply in_map_iff in H as (m & <- & Hm).
  apply findall_sound in Hm as (p1 & p2 & n & cs & -> & E & ->).
  apply title_match_sound in E as (t & post & -> & Hne & Hn & _ & ->).
  exists p1, post. cbn [snd hd]. now repeat split.
Qed.

(** X1. Every classical reference the extractor returns is the title of a
    span of the text: it is not empty, holds no closing mark, and stands
    in the text between 《 and 》. *)
Theorem classical_reference_is_a_span (text title : str) :
  In title (chinese_classics (extract_citations db text)) ->
  exists pre post, title_span text pre title post.
Proof.
  unfold extract_citations. cbn [chinese_classics]. unfold findall1, finditer.
  intros H. apply in_map_iff in H as (m & <- & Hm).
  apply findall_sound in Hm as (p1 & p2 & n & cs & -> & E & ->).
  apply title_match_sound in E as (t & post & -> & Hne & Hn & _ & ->).
  exists p1, post. cbn [snd hd]. now repeat split.
Qed.

Lemma tokens_sound (text token : str) :
  In token (foreign_texts (extract_citations db text)) ->
  (exists c l, token = c :: l /\ ascii_upper c = true /\ l <> []
               /\ forallb ascii_letter l = true)
  /\ (2 <= length token)%nat
  /\ stands_as_word db token text.
Proof.
  unfold extract_citations. cbn [foreign_texts]. unfold findall1, finditer.
  intros H. apply in_map_iff in H as (m & <- & Hm).
  apply findall_sound in Hm as (p1 & p2 & n & cs & -> & E & ->).
  rewrite app_nil_r in E.
  apply token_match_sound in E
    as (c & l & rs & -> & Hc & Hne & Hl & _ & -> & Hb & Ha).
  cbn [snd hd]. split; [|split].
  - now exists c, l.
  - destruct l; [contradiction | cbn [length]; lia].
  - exists p1, rs. unfold word_edge. cbn [app]. split; [reflexivity|].
    split; [exact Hb|]. unfold at_boundary.
    rewrite rev_app_distr, rev_cons_app.
    rewrite (word_before_letters db c l (rev p1)), Ha; [reflexivity|].
    cbn [forallb]. now rewrite (upper_is_letter c Hc).
Qed.

(** X2. Every foreign token the extractor returns is a capital ASCII
    letter followed by at least one ASCII letter, and stands in the text
    as a word of its own. *)
Theorem foreign_token_is_a_capitalised_word (text token : str) :
  In token (foreign_texts (extract_citations db text)) ->
  (exists c l, token = c :: l /\ ascii_upper c = true /\ l <> []
               /\ forallb ascii_letter l = true)
  /\ (2 <= length token)%nat
  /\ stands_as_word db token text.
Proof.
  unfold extract_citations. cbn [foreign_texts]. unfold findall1, finditer.
  intros H. apply in_map_iff in H as (m & <- & Hm).
  apply findall_sound in Hm as (p1 & p2 & n & cs & -> & E & ->).
  rewrite app_nil_r in E.
  apply token_match_sound in E
    as (c & l & rs & -> & Hc & Hne & Hl & _ & -> & Hb & Ha).
  cbn [snd hd]. split; [|split].
  - now exists c, l.
  - destruct l; [contradiction | cbn [length]; lia].
  - exists p1, rs. unfold word_edge. cbn [app]. split; [reflexivity|].
    split; [exact Hb|]. unfold at_boundary.
    rewrite rev_app_distr, rev_cons_app.
    rewrite (word_before_letters db c l (rev p1)), Ha; [reflexivity|].
    cbn [forallb]. now rewrite (upper_is_letter c Hc).
Qed.

Lemma english_theory_sound (text t : str) :
  In t (findall0 db english_theory_pattern text) ->
  (exists c l, t = c :: l ++ u "ism" /\ ascii_upper c = true
               /\ forallb ascii_letter l = true)
  /\ stands_as_word db t text.
Proof.
  unfold findall0, finditer. intros H.
  apply in_map_iff in H as (m & <- & Hm).
  apply findall_sound in Hm as (p1 & p2 & n & cs & -> & E & ->).
  rewrite app_nil_r in E.
  apply english_match_sound in E
    as (c & l & rs & -> & -> & Hc & Hl & Hb & He).
  cbn [fst]. rewrite firstn_length_app. split.
  - now exists c, l.
  - exists p1, rs. unfold word_edge. split; [reflexivity|].
    split; [exact Hb|]. now rewrite rev_app_distr.
Qed.

(** X3. The theory terms of a text hold no duplicate; each one occurs in
    the text and is either a keyword of the vocabulary or a capitalised
    run of ASCII letters ending in ism that stands as a word of its own;
    and every keyword of the vocabulary that occurs in the text is among
    them. *)
Theorem core_theories_sound_and_complete (order : set_order) (text : str) :
  NoDup (extract_core_theories db order text)
  /\ (forall t,
         In t (extract_core_theories db order text) ->
         occurs t text
         /\ (In t theory_keywords
             \/ (exists c l, t = c :: l ++ u "ism" /\ ascii_upper c = true
                             /\ forallb ascii_letter l = true)
                /\ stands_as_word db t text))
  /\ (forall t,
         In t theory_keywords -> occurs t text ->
         In t (extract_core_theories db order text)).
Proof.
  unfold extract_core_theories. rewrite found_keywords_filter.
  set (l := filter (contains text) theory_keywords
              ++ findall0 db english_theory_pattern text).
  assert (Hin : forall t, In t (as_list order l) <-> In t l).
  { intros t. split; intros H.
    - apply (nodup_In str_eq_dec).
      eapply Permutation_in; [apply as_list_perm | exact H].
    - eapply Permutation_in; [apply Permutation_sym, as_list_perm|].
      now apply nodup_In. }
  split; [|split].
  - eapply Permutation_NoDup; [apply Permutation_sym, as_list_perm|].
    apply NoDup_nodup.
  - intros t H. apply Hin in H. subst l. apply in_app_or in H as [H | H].
    + apply filter_In in H as [Hk Hc]. split; [|now left].
      now apply contains_spec.
    + destruct (english_theory_sound text t H) as (Hs & Hw). split.
      * destruct Hw as (pre & post & -> & _). now exists pre, post.
      * right. now split.
  - intros t Hk Ho. apply Hin. subst l. apply in_or_app. left.
    apply filter_In. split; [assumption | now apply contains_spec].
Qed.
End ExtractionTheory.

(* ===================================================================== *)
(** * Modern-paper citations *)
(* ===================================================================== *)

(** The sentence a modern-paper citation is read from. *)
Definition citation_sentence (author title venue year issue : str) : str :=
  author ++ [open_title] ++ title ++ u "》，《" ++ venue ++ [close_title]
         ++ year ++ u "年第" ++ issue ++ u "期".

Section ModernPapers.
Variable db : unicode_db.

Lemma matches_Repeat_inv n p seen rest caps sn rs cs :
  matches db (Repeat n p) seen rest caps sn rs cs ->
  exists l, length l = n /\ forallb p l = true /\ rest = l ++ rs
            /\ sn = rev l ++ seen /\ cs = caps.
Proof. intros H. inversion H; subst. eexists. now repeat split. Qed.

Lemma matches_Group_Plus_inv p seen rest caps sn rs cs :
  matches db (Group (Plus p)) seen rest caps sn rs cs ->
  exists l, l <> [] /\ forallb p l = true /\ rest = l ++ rs
            /\ sn = rev l ++ seen /\ cs = caps ++ [l].
Proof.
  intros H. apply matches_Group_inv in H as (cs' & H & ->).
  apply matches_Plus_inv in H as (l & Hne & Hl & -> & -> & ->).
  exists l. rewrite captured. now repeat split.
Qed.

Lemma matches_Group_Repeat_inv n p seen rest caps sn rs cs :
  matches db (Group (Repeat n p)) seen rest caps sn rs cs ->
  exists l, length l = n /\ forallb p l = true /\ rest = l ++ rs
            /\ sn = rev l ++ seen /\ cs = caps ++ [l].
Proof.
  intros H. apply matches_Group_inv in H as (cs' & H & ->).
  apply matches_Repeat_inv in H as (l & Hn & Hl & -> & -> & ->).
  exists l. rewrite captured. now repeat split.
Qed.

Lemma modern_match_sound (seen rest : str) (n : nat) (cs : list str) :
  match_at db (modern_papers_pattern db) seen rest = Some (n, cs) ->
  exists author title venue year issue rs,
    rest = citation_sentence author title venue year issue ++ rs
    /\ n = length (citation_sentence author title venue year issue)
    /\ cs = [author; title; venue; year; issue]
    /\ (author <> [] /\ forallb cjk author = true)
    /\ (title <> [] /\ ~ In close_title title)
    /\ (venue <> [] /\ ~ In close_title venue)
    /\ (length year = 4%nat /\ forallb (is_decimal db) year = true)
    /\ (issue <> [] /\ forallb (is_decimal db) issue = true).
Proof.
  intros H. apply match_at_sound in H as (t & rs & -> & -> & Hm).
  unfold modern_papers_pattern in Hm.
  apply matches_Cat_inv in Hm as (s1 & r1 & c1 & H1 & Hm).
  apply matches_Group_Plus_inv in H1 as (author & Na & Ha & E1 & -> & ->).
  apply matches_Cat_inv in Hm as (s2 & r2 & c2 & H2 & Hm).
  apply matches_Str_inv in H2 as (E2 & -> & ->).
  apply matches_Cat_inv in Hm as (s3 & r3 & c3 & H3 & Hm).
  apply matches_Group_Plus_inv in H3 as (title & Nt & Ht & E3 & -> & ->).
  apply matches_Cat_inv in Hm as (s4 & r4 & c4 & H4 & Hm).
  apply matches_Str_inv in H4 as (E4 & -> & ->).
  apply matches_Cat_inv in Hm as (s5 & r5 & c5 & H5 & Hm).
  apply matches_Group_Plus_inv in H5 as (venue & Nv & Hv & E5 & -> & ->).
  apply matches_Cat_inv in Hm as (s6 & r6 & c6 & H6 & Hm).
  apply matches_Str_inv in H6 as (E6 & -> & ->).
  apply matches_Cat_inv in Hm as (s7 & r7 & c7 & H7 & Hm).
  apply matches_Group_Repeat_inv in H7 as (year & Ny & Hy & E7 & -> & ->).
  apply matches_Cat_inv in Hm as (s8 & r8 & c8 & H8 & Hm).
  apply matches_Str_inv in H8 as (E8 & -> & ->).
  apply matches_Cat_inv in Hm as (s9 & r9 & c9 & H9 & Hm).
  apply matches_Group_Plus_inv in H9 as (issue & Ni & Hi & E9 & -> & ->).
  apply matches_Str_inv in Hm as (E10 & _ & Ecs).
  subst r9 r8 r7 r6 r5 r4 r3 r2 r1.
  assert (Et' : t ++ rs
                = citation_sentence author title venue year issue ++ rs).
  { rewrite E1. unfold citation_sentence. now rewrite <- !app_assoc. }
  apply app_inv_tail in Et'. subst t.
  exists author, title, venue, year, issue, rs.
  apply other_than_all in Ht, Hv.
  split; [reflexivity|]. split; [reflexivity|].
  split; [now rewrite Ecs|]. now repeat split.
Qed.
End ModernPapers.

Section CitationBundle.
Variable db : unicode_db.

(** X4. Every modern-paper entry is a tuple of five fields read from one
    sentence of the text, author《title》，《venue》year年第issue期: the
    author is a non-empty run of ideographs, title and venue are non-empty
    and hold no closing mark, the year is exactly four decimal digits and
    the issue number at least one. *)
Theorem modern_paper_is_a_citation (text : str) (paper : list str) :
  In paper (modern_papers (extract_citations db text)) ->
  exists author title venue year issue,
    paper = [author; title; venue; year; issue]
    /\ occurs (citation_sentence author title venue year issue) text
    /\ (author <> [] /\ forallb cjk author = true)
    /\ (title <> [] /\ ~ In close_title title)
    /\ (venue <> [] /\ ~ In close_title venue)
    /\ (length year = 4%nat /\ forallb (is_decimal db) year = true)
    /\ (issue <> [] /\ forallb (is_decimal db) issue = true).
Proof.
  unfold extract_citations. cbn [modern_papers].
  unfold findall_groups, finditer. intros H.
  apply in_map_iff in H as (m & <- & Hm).
  apply findall_sound in Hm as (p1 & p2 & n & cs & -> & E & ->).
  apply modern_match_sound in E
    as (author & title & venue & year & issue & rs & -> & _ & -> & Hrest).
  exists author, title, venue, year, issue. cbn [snd].
  split; [reflexivity|]. split; [now exists p1, rs | exact Hrest].
Qed.

(** X5. A text without an opening title mark yields no classical
    reference and no modern paper. *)
Theorem no_title_mark_no_reference (text : str) :
  ~ In open_title text ->
  chinese_classics (extract_citations db text) = []
  /\ modern_papers (extract_citations db text) = [].
Proof.
  intros Hno. unfold extract_citations.
  cbn [chinese_classics modern_papers].
  unfold findall1, findall_groups, finditer. split.
  - rewrite findall_nothing; [reflexivity|].
    intros p1 p2 ->.
    destruct (match_at db chinese_classics_pattern (rev p1 ++ []) p2)
      as [[n cs]|] eqn:E; [exfalso | reflexivity].
    apply title_match_sound in E as (t & post & -> & _).
    apply Hno, in_or_app. right. now left.
  - rewrite findall_nothing; [reflexivity|].
    intros p1 p2 ->.
    destruct (match_at db (modern_papers_pattern db) (rev p1 ++ []) p2)
      as [[n cs]|] eqn:E; [exfalso | reflexivity].
    apply modern_match_sound in E
      as (author & title & venue & year & issue & rs & -> & _).
    apply Hno, in_or_app. right. unfold citation_sentence.
    apply in_or_app. left. apply in_or_app. right. now left.
Qed.

(** X6. A text without an ASCII capital letter yields no foreign token,
    and its theory terms are the vocabulary keywords it holds. *)
Theorem no_capital_no_foreign_token (order : set_order) (text : str) :
  (forall c, In c text -> ascii_upper c = false) ->
  foreign_texts (extract_citations db text) = []
  /\ extract_core_theories db order text
     = as_list order (filter (contains text) theory_keywords).
Proof.
  intros Hno. split.
  - unfold extract_citations. cbn [foreign_texts]. unfold findall1, finditer.
    rewrite findall_nothing; [reflexivity|].
    intros p1 p2 ->.
    destruct (match_at db foreign_texts_pattern (rev p1 ++ []) p2)
      as [[n cs]|] eqn:E; [exfalso | reflexivity].
    apply token_match_sound in E as (c & l & rs & -> & Hc & _).
    rewrite Hno in Hc; [discriminate|]. apply in_or_app. right. now left.
  - unfold extract_core_theories. rewrite found_keywords_filter.
    unfold findall0, finditer.
    rewrite findall_nothing; [now rewrite app_nil_r|].
    intros p1 p2 ->.
    destruct (match_at db english_theory_pattern (rev p1 ++ []) p2)
      as [[n cs]|] eqn:E; [exfalso | reflexivity].
    apply english_match_sound in E as (c & l & rs & -> & _ & Hc & _).
    rewrite Hno in Hc; [discriminate|]. apply in_or_app. right. now left.
Qed.

(** X7. Matches do not overlap, so the three sequences of a bundle are
    bounded by the length of the text: a classical reference takes at
    least three characters, a foreign token two, a modern paper sixteen. *)
Theorem citation_bundle_bounds (text : str) :
  (3 * length (chinese_classics (extract_citations db text))
   <= length text)%nat
  /\ (2 * length (foreign_texts (extract_citations db text))
      <= length text)%nat
  /\ (16 * length (modern_papers (extract_citations db text))
      <= length text)%nat.
Proof.
  unfold extract_citations.
  cbn [chinese_classics foreign_texts modern_papers].
  unfold findall1, findall_groups. rewrite !length_map.
  split; [|split]; apply finditer_bound; try lia.
  - intros seen rest n cs E.
    apply title_match_sound in E as (t & post & _ & Hne & _ & -> & _).
    destruct t; [contradiction | cbn [length]; lia].
  - intros seen rest n cs E.
    apply token_match_sound in E as (c & l & rs & _ & _ & Hne & _ & -> & _).
    destruct l; [contradiction | cbn [length]; lia].
  - intros seen rest n cs E.
    apply modern_match_sound in E
      as (author & title & venue & year & issue & rs & _ & -> & _
          & (Na & _) & (Nt & _) & (Nv & _) & (Ny & _) & (Ni & _)).
    unfold citation_sentence. rewrite !length_app, Ny.
    assert (L1 : length (u "》，《") = 3%nat) by (vm_compute; reflexivity).
    assert (L2 : length (u "年第") = 2%nat) by (vm_compute; reflexivity).
    assert (L3 : length (u "期") = 1%nat) by (vm_compute; reflexivity).
    rewrite L1, L2, L3. cbn [length].
    destruct author; [contradiction|]. destruct title; [contradiction|].
    destruct venue; [contradiction|]. destruct issue; [contradiction|].
    cbn [length]. lia.
Qed.
End CitationBundle.

(* ===================================================================== *)
(** * More on the Diagnoser *)
(* ===================================================================== *)

Lemma occurs_embedded (needle t pre post : str) :
  occurs needle t -> occurs needle (pre ++ t ++ post).
Proof.
  intros (a & b & ->). exists (pre ++ a), (b ++ post).
  now rewrite <- !app_assoc.
Qed.

Lemma dict_set_keys (d : dict) (k v : str) :
  dict_has d k = true -> map fst (dict_set d k v) = map fst d.
Proof.
  unfold dict_has. induction d as [|[k' v'] d IH]; cbn [dict_get dict_set].
  - discriminate.
  - destruct (str_eqb k' k) eqn:E; cbn [map fst]; [reflexivity|].
    intros H. now rewrite IH.
Qed.

Lemma typo_hits_by_key (text : str) (d : dict) :
  length (filter (typo_hit text) d)
  = length (filter (contains text) (map fst d)).
Proof.
  induction d as [|[k v] d IH]; cbn [filter map fst]; [reflexivity|].
  unfold typo_hit at 1. cbn [fst].
  destruct (contains text k); cbn [length]; now rewrite IH.
Qed.

Section DiagnoserMore.
Variable db : unicode_db.

(** X8. Whatever the typo table, the typo issues are the lines of its
    entries whose incorrect form occurs in the text: every entry that
    occurs surfaces, and every issue comes from an entry that occurs. *)
Theorem typo_issues_sound_and_complete
        (table : dict) (patterns : list (regex * str)) (text : str) :
  (forall typo correct,
      In (typo, correct) table -> occurs typo text ->
      In (typo_issue typo correct)
         (typos (diagnose_with db table patterns text)))
  /\ (forall issue,
         In issue (typos (diagnose_with db table patterns text)) ->
         exists typo correct,
           In (typo, correct) table /\ occurs typo text
           /\ issue = typo_issue typo correct).
Proof.
  destruct (diagnose_with_lists db table patterns text) as (E & _ & _).
  rewrite E. split.
  - intros typo correct Hin Hocc.
    apply (in_map typo_line _ (typo, correct)), filter_In.
    split; [assumption | now apply contains_spec].
  - intros issue H. apply in_map_iff in H as ([typo correct] & <- & H).
    apply filter_In in H as [Hin Hhit].
    exists typo, correct. repeat split; [assumption|].
    now apply contains_spec.
Qed.

(** X9. Typo detection is by substring, so text added before or after a
    manuscript removes none of its typo issues. *)
Theorem typo_issues_survive_embedding
        (table : dict) (patterns : list (regex * str)) (text pre post : str) :
  incl (typos (diagnose_with db table patterns text))
       (typos (diagnose_with db table patterns (pre ++ text ++ post))).
Proof.
  destruct (diagnose_with_lists db table patterns text) as (E & _ & _).
  destruct (diagnose_with_lists db table patterns (pre ++ text ++ post))
    as (E' & _ & _).
  rewrite E, E'. intros issue H.
  apply in_map_iff in H as (entry & <- & H).
  apply filter_In in H as [Hin Hhit].
  apply in_map, filter_In. split; [assumption|].
  unfold typo_hit in *. apply contains_spec, occurs_embedded.
  now apply contains_spec.
Qed.

(** X10. Storing a new correction under an incorrect form the table
    already holds replaces the entry: the number of issues of any text
    stays the same. *)
Theorem replacing_typo_entry_keeps_count
        (table : dict) (patterns : list (regex * str)) (text : str)
        (typo correct : str) :
  dict_has table typo = true ->
  issue_count (diagnose_with db (dict_set table typo correct) patterns text)
  = issue_count (diagnose_with db table patterns text).
Proof.
  intros Hhas. unfold issue_count.
  destruct (diagnose_with_lists db table patterns text) as (E1 & E2 & E3).
  destruct (diagnose_with_lists db (dict_set table typo correct) patterns text)
    as (F1 & F2 & F3).
  rewrite E1, E2, E3, F1, F2, F3, !length_map, !typo_hits_by_key.
  now rewrite (dict_set_keys table typo correct Hhas).
Qed.

(** X11. A diagnosis holds at most one issue per entry of its two
    tables; with the tables of the script, at most six. *)
Theorem diagnosis_is_bounded_by_the_tables
        (table : dict) (patterns : list (regex * str)) (text : str) :
  (length (typos (diagnose_with db table patterns text))
   <= length table)%nat
  /\ (length (term_misuses (diagnose_with db table patterns text))
      <= length patterns)%nat
  /\ (issue_count (diagnose_paper db text) <= 6)%nat.
Proof.
  assert (G : forall T P,
             (length (typos (diagnose_with db T P text)) <= length T)%nat
             /\ (length (term_misuses (diagnose_with db T P text))
                 <= length P)%nat
             /\ length (citation_errors (diagnose_with db T P text)) = 0%nat).
  { intros T P.
    destruct (diagnose_with_lists db T P text) as (E1 & E2 & E3).
    rewrite E1, E2, E3, !length_map. repeat split; apply filter_length_le. }
  destruct (G table patterns) as (H1 & H2 & _).
  split; [exact H1|]. split; [exact H2|].
  unfold issue_count, diagnose_paper.
  destruct (G common_typos term_misuses_patterns) as (K1 & K2 & K3).
  assert (L1 : length common_typos = 4%nat) by (vm_compute; reflexivity).
  assert (L2 : length term_misuses_patterns = 2%nat) by reflexivity.
  rewrite L1 in K1. rewrite L2 in K2. lia.
Qed.
End DiagnoserMore.

(* ===================================================================== *)
(** * More on the Lineage Analyzer *)
(* ===================================================================== *)

(** X12. The analysis of a list of terms is the analysis of its parts put
    end to end, and it never recommends more readings than it has
    sentences. *)
Theorem lineage_of_concatenation (l1 l2 : list str) :
  solid_theories (analyze_theoretical_lineage (l1 ++ l2))
  = solid_theories (analyze_theoretical_lineage l1)
      ++ solid_theories (analyze_theoretical_lineage l2)
  /\ missing_literature (analyze_theoretical_lineage (l1 ++ l2))
     = missing_literature (analyze_theoretical_lineage l1)
         ++ missing_literature (analyze_theoretical_lineage l2)
  /\ (length (missing_literature (analyze_theoretical_lineage l1))
      <= length (solid_theories (analyze_theoretical_lineage l1)))%nat.
Proof.
  rewrite !lineage_lists. cbn [solid_theories missing_literature].
  rewrite filter_app, !map_app, !length_map.
  repeat split. apply filter_length_le.
Qed.

(* ===================================================================== *)
(** * More on the Citation Auditor *)
(* ===================================================================== *)

Lemma notices_count (tokens : list str) :
  length (flat_map notices_for tokens)
  = length (filter (dict_has common_mistranslations) tokens).
Proof.
  induction tokens as [|t tokens IH]; cbn [flat_map filter]; [reflexivity|].
  rewrite length_app, IH. unfold notices_for at 1, dict_has at 2.
  now destruct (dict_get common_mistranslations t).
Qed.

Lemma audit_length (citations : Citations) :
  length (check_citations_accuracy citations)
  = (length (filter needs_edition (chinese_classics citations))
     + length (filter (dict_has common_mistranslations)
                      (foreign_texts citations)))%nat.
Proof.
  rewrite check_citations_lists, length_app, length_map.
  now rewrite notices_count.
Qed.

(** X13. The audit reports without deduplication: it has one line per
    classical reference that is a canonical work and one line per foreign
    token the mistranslation table knows, repeated as often as the bundle
    repeats them; the modern papers add nothing. *)
Theorem audit_counts_every_occurrence (citations : Citations) :
  length (check_citations_accuracy citations)
  = (length (filter needs_edition (chinese_classics citations))
     + length (filter (dict_has common_mistranslations)
                      (foreign_texts citations)))%nat.
Proof.
  rewrite check_citations_lists, length_app, length_map.
  now rewrite notices_count.
Qed.

(** X14. The audit is silent exactly when no classical reference is a
    canonical work and no foreign token is in the mistranslation table:
    tokens the table does not know are dropped without a trace. *)
Theorem audit_silent_iff (citations : Citations) :
  check_citations_accuracy citations = []
  <-> (forall classic,
          In classic (chinese_classics citations) ->
          ~ In classic canonical_classics)
      /\ (forall token,
             In token (foreign_texts citations) ->
             dict_get common_mistranslations token = None).
Proof.
  rewrite <- length_zero_iff_nil, audit_length.
  split.
  - intros H.
    assert (H1 : filter needs_edition (chinese_classics citations) = [])
      by (apply length_zero_iff_nil; lia).
    assert (H2 : filter (dict_has common_mistranslations)
                        (foreign_texts citations) = [])
      by (apply length_zero_iff_nil; lia).
    split.
    + intros classic Hin Hc.
      assert (F : In classic (filter needs_edition (chinese_classics citations))).
      { apply filter_In. split; [assumption | now apply str_in_In]. }
      rewrite H1 in F. destruct F.
    + intros token Hin.
      destruct (dict_get common_mistranslations token) eqn:E; [|reflexivity].
      assert (F : In token (filter (dict_has common_mistranslations)
                                   (foreign_texts citations))).
      { apply filter_In. split; [assumption|]. unfold dict_has. now rewrite E. }
      rewrite H2 in F. destruct F.
  - intros [H1 H2].
    assert (F1 : filter needs_edition (chinese_classics citations) = []).
    { destruct (filter needs_edition (chinese_classics citations))
        as [|x l] eqn:E; [reflexivity | exfalso].
      assert (F : In x (filter needs_edition (chinese_classics citations)))
        by (rewrite E; now left).
      apply filter_In in F as [Hin Hc]. apply (H1 x Hin).
      now apply str_in_In. }
    assert (F2 : filter (dict_has common_mistranslations)
                        (foreign_texts citations) = []).
    { destruct (filter (dict_has common_mistranslations)
                       (foreign_texts citations)) as [|x l] eqn:E;
        [reflexivity | exfalso].
      assert (F : In x (filter (dict_has common_mistranslations)
                               (foreign_texts citations)))
        by (rewrite E; now left).
      apply filter_In in F as [Hin Hc]. unfold dict_has in Hc.
      now rewrite (H2 x Hin) in Hc. }
    now rewrite F1, F2.
Qed.

(* ===================================================================== *)
(** * More on the Discourse Reviewer *)
(* ===================================================================== *)

Lemma on_one_line_embedded (a b c t pre post : str) :
  appear_on_one_line3 a b c t ->
  appear_on_one_line3 a b c (pre ++ t ++ post).
Proof.
  intros (p0 & p1 & p2 & p3 & -> & H1 & H2).
  exists (pre ++ p0), p1, p2, (p3 ++ post).
  split; [now rewrite <- !app_assoc | now split].
Qed.

Section DiscourseMore.
Variable db : unicode_db.

Lemma jargon_match_sound (seen rest : str) (n : nat) (cs : list str) :
  match_at db jargon_pattern seen rest = Some (n, cs) -> (2 <= n)%nat.
Proof.
  intros H. apply match_at_sound in H as (t & rs & -> & -> & Hm).
  unfold jargon_pattern in Hm.
  apply matches_Cat_inv in Hm as (s1 & r1 & c1 & Hb & Hm).
  apply matches_WordB_inv in Hb as (_ & E1 & E2 & E3). subst s1 r1 c1.
  apply matches_Cat_inv in Hm as (s2 & r2 & c2 & Hp & Hm).
  apply matches_Plus_inv in Hp as (l & Hne & _ & Et & E4 & E5). subst s2 c2.
  apply matches_Cat_inv in Hm as (s3 & r3 & c3 & Hc & He).
  apply matches_Class_inv in Hc as (c & _ & E6 & E7 & E8). subst r2 s3 c3.
  apply matches_WordB_inv in He as (_ & _ & E9 & _). subst r3.
  assert (Et' : t ++ rs = (l ++ [c]) ++ rs)
    by (rewrite Et; now rewrite <- app_assoc).
  apply app_inv_tail in Et'. subst t.
  rewrite length_app. cbn [length].
  destruct l; [contradiction | cbn [length]; lia].
Qed.

(** X15. The theoretical-transplant warning is raised exactly when 西方,
    理论 and 中国 appear in that order with no line feed in between, and
    then once; the logic issues hold nothing else. *)
Theorem transplant_warning_iff (text : str) :
  (In transplant_warning (logic_issues (review_aesthetic_logic db text))
   <-> appear_on_one_line3 (u "西方") (u "理论") (u "中国") text)
  /\ (logic_issues (review_aesthetic_logic db text) = []
      \/ logic_issues (review_aesthetic_logic db text) = [transplant_warning]).
Proof.
  unfold review_aesthetic_logic. cbn [logic_issues].
  destruct (contains text (u "西方") && contains text (u "中国")) eqn:Eg.
  - destruct (search db transplant_pattern text) eqn:Es.
    + split; [|now right]. split; [intros _ | intros _; now left].
      apply (transplant_search db). congruence.
    + split; [|now left]. split; [intros [] | intros H].
      apply (transplant_search db) in H. congruence.
  - split; [|now left]. split; [intros [] | intros H]. exfalso.
    destruct H as (p0 & p1 & p2 & p3 & -> & _).
    assert (Hw : contains (p0 ++ u "西方" ++ p1 ++ u "理论" ++ p2 ++ u "中国" ++ p3)
                          (u "西方") = true)
      by (apply contains_spec; now exists p0, (p1 ++ u "理论" ++ p2 ++ u "中国" ++ p3)).
    assert (Hc : contains (p0 ++ u "西方" ++ p1 ++ u "理论" ++ p2 ++ u "中国" ++ p3)
                          (u "中国") = true).
    { apply contains_spec.
      exists (p0 ++ u "西方" ++ p1 ++ u "理论" ++ p2), p3.
      now rewrite <- !app_assoc. }
    rewrite Hw, Hc in Eg. discriminate.
Qed.

(** X16. The transplant check has no word boundary in it, so text added
    before or after a manuscript never removes the warning. *)
Theorem transplant_warning_survives_embedding (text pre post : str) :
  In transplant_warning (logic_issues (review_aesthetic_logic db text)) ->
  logic_issues (review_aesthetic_logic db (pre ++ text ++ post))
  = [transplant_warning].
Proof.
  intros H.
  assert (A : appear_on_one_line3 (u "西方") (u "理论") (u "中国") text).
  { unfold review_aesthetic_logic in H. cbn [logic_issues] in H.
    destruct (contains text (u "西方") && contains text (u "中国"));
      [|destruct H].
    destruct (search db transplant_pattern text) eqn:Es; [|destruct H].
    apply (transplant_search db). congruence. }
  apply (on_one_line_embedded _ _ _ _ pre post) in A.
  unfold review_aesthetic_logic. cbn [logic_issues].
  assert (Hw : contains (pre ++ text ++ post) (u "西方") = true).
  { destruct A as (p0 & p1 & p2 & p3 & -> & _).
    apply contains_spec. now eexists p0, _. }
  assert (Hc : contains (pre ++ text ++ post) (u "中国") = true).
  { destruct A as (p0 & p1 & p2 & p3 & -> & _).
    apply contains_spec.
    exists (p0 ++ u "西方" ++ p1 ++ u "理论" ++ p2), p3.
    now rewrite <- !app_assoc. }
  rewrite Hw, Hc. cbn [andb].
  apply (transplant_search db) in A.
  destruct (search db transplant_pattern (pre ++ text ++ post));
    [reflexivity | contradiction].
Qed.

(** X17. The jargon warning needs more than twenty matches of at least
    two characters each, none overlapping: a text of at most forty-one
    characters never gets it, and the discourse issues hold nothing
    else. *)
Theorem short_text_has_no_jargon_warning (text : str) :
  ((length text <= 41)%nat ->
   discourse_issues (review_aesthetic_logic db text) = [])
  /\ (discourse_issues (review_aesthetic_logic db text) = []
      \/ discourse_issues (review_aesthetic_logic db text) = [jargon_warning]).
Proof.
  unfold review_aesthetic_logic. cbn [discourse_issues]. split.
  - intros Hlen.
    assert (B := finditer_bound db jargon_pattern 2 text
                   (le_S _ _ (le_n 1)) jargon_match_sound).
    unfold findall0. rewrite length_map.
    match goal with
    | |- (if ?b then _ else _) = [] => destruct b eqn:E
    end; [|reflexivity].
    apply Nat.ltb_lt in E. unfold found, str, char in *. lia.
  - destruct (Nat.ltb 20 (length (findall0 db jargon_pattern text)));
      [now right | now left].
Qed.
End DiscourseMore.

(* ===================================================================== *)
(** * More on the report *)
(* ===================================================================== *)

(** The lines [generate_review_report] prints when it runs through. *)
Definition progress_lines : list str :=
  [ u "🎯 开始论文诊断..."; u "🔍 提取核心理论和引文...";
    u "📊 进行学术透视分析..."; u "💡 生成修改建议..." ].

(** What the renderer writes for one list of the diagnosis. *)
Definition render_issue_list (entry : str * list str) : str :=
  if is_nonempty (snd entry) then
    u "- **" ++ fst entry ++ u "**：" ++ nl ++ bullets (u "  - ") (snd entry)
  else [].

Lemma core_theories_nodup (db : unicode_db) (order : set_order) (text : str) :
  NoDup (extract_core_theories db order text).
Proof.
  unfold extract_core_theories.
  eapply Permutation_NoDup; [apply Permutation_sym, as_list_perm|].
  apply NoDup_nodup.
Qed.

Lemma generate_review_report_io_ok
      (db : unicode_db) (order : set_order) (now text : str) :
  exists r,
    generate_review_report db order now text = Ok r
    /\ generate_review_report_io db order now text = (progress_lines, Ok r).
Proof.
  destruct (generate_review_report_ok db order now text) as (e & He & Hr).
  eexists. split; [exact Hr|].
  unfold generate_review_report_io. rewrite He. reflexivity.
Qed.

Section ReportMore.
Variable db : unicode_db.

End ReportMore.

Lemma render_loop (items : list (str * list str)) (out : str) :
  fold_left
    (fun out entry =>
       let '(issue_type, found_issues) := entry in
       if is_nonempty found_issues then
         let out := out ++ u "- **" ++ issue_type ++ u "**：" ++ nl in
         out ++ bullets (u "  - ") found_issues
       else out) items out
  = out ++ concat (map render_issue_list items).
Proof.
  revert out. induction items as [|[k l] items IH]; intros out;
    cbn [fold_left map concat].
  - now rewrite app_nil_r.
  - rewrite IH. unfold render_issue_list at 2. cbn [fst snd].
    destruct (is_nonempty l); cbn [app]; now rewrite <- ?app_assoc.
Qed.

Lemma heading_is_not_fallback (k rest : str) :
  u "- **" ++ k ++ rest <> no_issues_found.
Proof.
  intros H. apply (f_equal (fun s => nth 2 s 0)) in H.
  vm_compute in H. discriminate H.
Qed.

(** X19. The diagnosis section shows the fallback line exactly when the
    three lists of the diagnosis are all empty; otherwise it lists the
    non-empty ones under their keys. *)
Theorem fallback_iff_no_issue (h : HardIssues) :
  (format_diagnosis h
   = (u "## 第一步：诊断结果" ++ nl ++ nl) ++ (u "### 硬伤列表" ++ nl)
       ++ no_issues_found
   <-> typos h = [] /\ citation_errors h = [] /\ term_misuses h = [])
  /\ format_diagnosis h
     = (u "## 第一步：诊断结果" ++ nl ++ nl) ++ (u "### 硬伤列表" ++ nl)
         ++ (if existsb is_nonempty (map snd (hard_issues_items h))
             then concat (map render_issue_list (hard_issues_items h))
             else no_issues_found).
Proof.
  assert (F : format_diagnosis h
              = (u "## 第一步：诊断结果" ++ nl ++ nl) ++ (u "### 硬伤列表" ++ nl)
                  ++ (if existsb is_nonempty (map snd (hard_issues_items h))
                      then concat (map render_issue_list (hard_issues_items h))
                      else no_issues_found)).
  { unfold format_diagnosis.
    destruct (existsb is_nonempty (map snd (hard_issues_items h))).
    - rewrite render_loop. now rewrite <- !app_assoc.
    - now rewrite <- !app_assoc. }
  split; [|exact F]. rewrite F. clear F.
  destruct h as [ty ce tm]. unfold hard_issues_items.
  cbn [typos citation_errors term_misuses map snd existsb concat]. split.
  - intros H. apply app_inv_head in H. apply app_inv_head in H.
    destruct ty as [|a ty]; [destruct ce as [|b ce]; [destruct tm as [|c tm]|]|];
      [now repeat split | exfalso | exfalso | exfalso];
      cbn [is_nonempty orb] in H;
      unfold render_issue_list in H; cbn [fst snd is_nonempty app] in H;
      rewrite <- ?app_assoc in H;
      exact (heading_is_not_fallback _ _ H).
  - intros (-> & -> & ->). reflexivity.
Qed.

(* ===================================================================== *)
(** * The command line *)
(* ===================================================================== *)

Lemma truthy_spec (x : option str) :
  truthy x = true <-> exists s, x = Some s /\ s <> [].
Proof.
  split.
  - destruct x as [[|c s]|]; cbn [truthy]; try discriminate.
    intros _. exists (c :: s). now split.
  - intros (s & -> & Hne). destruct s; [contradiction | reflexivity].
Qed.


Section MainTheory.
Variable db : unicode_db.

End MainTheory.

(* ===================================================================== *)
(** * From the text to the audit *)
(* ===================================================================== *)

Section GroundedAudit.
Variable db : unicode_db.

(** X22. Every line the audit produces for a text is grounded in it: a
    reminder names a canonical work whose title stands in the text
    between 《 and 》 (as the whole of a span), and a translation notice
    names an entry of the mistranslation table whose foreign name stands
    in the text as a word of its own. *)
Theorem audit_lines_are_grounded (text line : str) :
  In line (check_citations_accuracy (extract_citations db text)) ->
  (exists classic pre post,
      line = classic_reminder classic
      /\ In classic canonical_classics
      /\ title_span text pre classic post)
  \/ (exists name translation,
         line = translation_notice name translation
         /\ dict_get common_mistranslations name = Some translation
         /\ stands_as_word db name text).
Proof.
  rewrite check_citations_lists. intros H. apply in_app_or in H as [H | H].
  - left. apply in_map_iff in H as (classic & <- & H).
    apply filter_In in H as [Hin Hc].
    destruct (classics_sound db text classic Hin) as (pre & post & Hs).
    exists classic, pre, post. repeat split; try apply Hs.
    now apply str_in_In.
  - right. apply in_flat_map in H as (name & Hin & H).
    unfold notices_for in H.
    destruct (dict_get common_mistranslations name) as [translation|] eqn:E;
      [|destruct H].
    destruct H as [<- | []]. exists name, translation.
    repeat split; [exact E|].
    now destruct (tokens_sound db text name Hin) as (_ & _ & Hw).
Qed.
End GroundedAudit.

(* ===================================================================== *)
(** * Witnesses *)
(* ===================================================================== *)

Lemma classical_reference_is_a_span_witness :
  In (u "诗品") (chinese_classics (extract_citations sample_db (u "读《诗品》")))
  /\ exists pre post, title_span (u "读《诗品》") pre (u "诗品") post.
Proof.
  assert (H : In (u "诗品")
                 (chinese_classics (extract_citations sample_db (u "读《诗品》"))))
    by (vm_compute; left; reflexivity).
  split; [exact H|].
  exact (classical_reference_is_a_span sample_db (u "读《诗品》") (u "诗品") H).
Defined.

Lemma foreign_token_is_a_capitalised_word_witness :
  In (u "Hegel") (foreign_texts (extract_citations sample_db (u "论 Hegel 美学")))
  /\ (2 <= length (u "Hegel"))%nat
  /\ stands_as_word sample_db (u "Hegel") (u "论 Hegel 美学").
Proof.
  assert (H : In (u "Hegel")
                 (foreign_texts (extract_citations sample_db (u "论 Hegel 美学"))))
    by (vm_compute; left; reflexivity).
  split; [exact H|].
  exact (proj2 (foreign_token_is_a_capitalised_word
                  sample_db (u "论 Hegel 美学") (u "Hegel") H)).
Defined.

Lemma modern_paper_is_a_citation_witness :
  In [u "张三"; u "文心雕龙研究"; u "文学评论"; u "2020"; u "3"]
     (modern_papers
        (extract_citations sample_db (u "张三《文心雕龙研究》，《文学评论》2020年第3期")))
  /\ exists author title venue year issue,
      [u "张三"; u "文心雕龙研究"; u "文学评论"; u "2020"; u "3"]
      = [author; title; venue; year; issue]
      /\ occurs (citation_sentence author title venue year issue)
                (u "张三《文心雕龙研究》，《文学评论》2020年第3期")
      /\ (author <> [] /\ forallb cjk author = true)
      /\ (title <> [] /\ ~ In close_title title)
      /\ (venue <> [] /\ ~ In close_title venue)
      /\ (length year = 4%nat /\ forallb (is_decimal sample_db) year = true)
      /\ (issue <> [] /\ forallb (is_decimal sample_db) issue = true).
Proof.
  assert (H : In [u "张三"; u "文心雕龙研究"; u "文学评论"; u "2020"; u "3"]
                 (modern_papers
                    (extract_citations
                       sample_db (u "张三《文心雕龙研究》，《文学评论》2020年第3期"))))
    by (vm_compute; left; reflexivity).
  split; [exact H|].
  exact (modern_paper_is_a_citation
           sample_db (u "张三《文心雕龙研究》，《文学评论》2020年第3期") _ H).
Defined.

Lemma no_title_mark_no_reference_witness :
  ~ In open_title (u "论物感")
  /\ chinese_classics (extract_citations sample_db (u "论物感")) = []
  /\ modern_papers (extract_citations sample_db (u "论物感")) = [].
Proof.
  assert (H : ~ In open_title (u "论物感"))
    by (apply other_than_all; vm_compute; reflexivity).
  split; [exact H|].
  exact (no_title_mark_no_reference sample_db (u "论物感") H).
Defined.

Lemma no_capital_no_foreign_token_witness :
  (forall c, In c (u "论物感 and more") -> ascii_upper c = false)
  /\ foreign_texts (extract_citations sample_db (u "论物感 and more")) = []
  /\ extract_core_theories sample_db first_seen_order (u "论物感 and more")
     = as_list first_seen_order
               (filter (contains (u "论物感 and more")) theory_keywords).
Proof.
  assert (H : forall c, In c (u "论物感 and more") -> ascii_upper c = false).
  { assert (F : forallb (fun c => negb (ascii_upper c)) (u "论物感 and more")
                = true) by (vm_compute; reflexivity).
    rewrite forallb_forall in F. intros c Hc. apply F in Hc.
    now destruct (ascii_upper c). }
  split; [exact H|].
  exact (no_capital_no_foreign_token sample_db first_seen_order
                                     (u "论物感 and more") H).
Defined.

Lemma replacing_typo_entry_keeps_count_witness :
  dict_has common_typos (u "黑格尔") = true
  /\ issue_count
       (diagnose_with sample_db (dict_set common_typos (u "黑格尔") (u "谢林"))
                      term_misuses_patterns (u "黑格尔的美学"))
     = issue_count
         (diagnose_with sample_db common_typos term_misuses_patterns
                        (u "黑格尔的美学")).
Proof.
  assert (H : dict_has common_typos (u "黑格尔") = true)
    by (vm_compute; reflexivity).
  split; [exact H|].
  exact (replacing_typo_entry_keeps_count
           sample_db common_typos term_misuses_patterns (u "黑格尔的美学")
           (u "黑格尔") (u "谢林") H).
Defined.

Lemma transplant_warning_survives_embedding_witness :
  In transplant_warning
     (logic_issues (review_aesthetic_logic sample_db (u "西方的理论在中国")))
  /\ logic_issues
       (review_aesthetic_logic
          sample_db (u "引言：" ++ u "西方的理论在中国" ++ u "的接受"))
     = [transplant_warning].
Proof.
  assert (H : In transplant_warning
                 (logic_issues
                    (review_aesthetic_logic sample_db (u "西方的理论在中国"))))
    by (vm_compute; left; reflexivity).
  split; [exact H|].
  exact (transplant_warning_survives_embedding
           sample_db (u "西方的理论在中国") (u "引言：") (u "的接受") H).
Defined.

Lemma audit_lines_are_grounded_witness :
  In (classic_reminder (u "诗品"))
     (check_citations_accuracy (extract_citations sample_db (u "读《诗品》")))
  /\ ((exists classic pre post,
          classic_reminder (u "诗品") = classic_reminder classic
          /\ In classic canonical_classics
          /\ title_span (u "读《诗品》") pre classic post)
      \/ (exists name translation,
             classic_reminder (u "诗品") = translation_notice name translation
             /\ dict_get common_mistranslations name = Some translation
             /\ stands_as_word sample_db name (u "读《诗品》"))).
Proof.
  assert (H : In (classic_reminder (u "诗品"))
                 (check_citations_accuracy
                    (extract_citations sample_db (u "读《诗品》"))))
    by (vm_compute; left; reflexivity).
  split; [exact H|].
  exact (audit_lines_are_grounded sample_db (u "读《诗品》") _ H).
Defined.

Lemma core_theories_sound_and_complete_witness :
  In (u "解构主义") theory_keywords
  /\ occurs (u "解构主义") (u "Postmodernism 与解构主义")
  /\ In (u "解构主义")
        (extract_core_theories sample_db first_seen_order
                               (u "Postmodernism 与解构主义"))
  /\ NoDup (extract_core_theories sample_db first_seen_order
                                  (u "Postmodernism 与解构主义")).
Proof.
  assert (H1 : In (u "解构主义") theory_keywords) by (left; reflexivity).
  assert (H2 : occurs (u "解构主义") (u "Postmodernism 与解构主义"))
    by (apply contains_spec; vm_compute; reflexivity).
  split; [exact H1|]. split; [exact H2|]. split.
  - exact (proj2 (proj2 (core_theories_sound_and_complete
                           sample_db first_seen_order
                           (u "Postmodernism 与解构主义")))
                 (u "解构主义") H1 H2).
  - exact (proj1 (core_theories_sound_and_complete
                    sample_db first_seen_order (u "Postmodernism 与解构主义"))).
Defined.

Lemma typo_issues_sound_and_complete_witness :
  In (u "解构论", u "解构主义") common_typos
  /\ occurs (u "解构论") (u "论解构论")
  /\ In (typo_issue (u "解构论") (u "解构主义"))
        (typos (diagnose_with sample_db common_typos term_misuses_patterns
                              (u "论解构论"))).
Proof.
  assert (H1 : In (u "解构论", u "解构主义") common_typos)
    by (vm_compute; right; right; left; reflexivity).
  assert (H2 : occurs (u "解构论") (u "论解构论"))
    by (apply contains_spec; vm_compute; reflexivity).
  split; [exact H1|]. split; [exact H2|].
  exact (proj1 (typo_issues_sound_and_complete
                  sample_db common_typos term_misuses_patterns (u "论解构论"))
               (u "解构论") (u "解构主义") H1 H2).
Defined.

Lemma short_text_has_no_jargon_warning_witness :
  (length (u "解构主义 现象学理论 叙事学转向") <= 41)%nat
  /\ discourse_issues
       (review_aesthetic_logic sample_db (u "解构主义 现象学理论 叙事学转向")) = [].
Proof.
  assert (H : (length (u "解构主义 现象学理论 叙事学转向") <= 41)%nat)
    by (vm_compute; lia).
  split; [exact H|].
  exact (proj1 (short_text_has_no_jargon_warning
                  sample_db (u "解构主义 现象学理论 叙事学转向")) H).
Defined.

(** A file system with nothing in it. *)
Definition empty_fs (path : str) : file_state := Absent.



Example run_length_line :
  u "📝 论文内容长度：" ++ decimal (length (u "西方的理论在中国")) ++ u " 字符"
  = u "📝 论文内容长度：8 字符".
Proof. vm_compute. reflexivity. Qed.

Example run_missing_file :
  read_paper_content
    empty_fs {| file := Some (u "paper.txt"); content := Some (u "论物感") |}
  = ([u "❌ 错误：文件 paper.txt 不存在"], SystemExit 1).
Proof. vm_compute. reflexivity. Qed.

Example run_confusion_lost_when_embedded :
  term_misuses (diagnose_paper sample_db (u "解构主义, 结构主义"))
  = [u "混淆了解构主义和结构主义"]
  /\ term_misuses (diagnose_paper sample_db (u "论解构主义, 结构主义")) = [].
Proof. split; vm_compute; reflexivity. Qed.
